(** * Control-systems tool: stability table, coefficient parsing, simulation
      grid and transfer-function algebra

    A shallow embedding of the computational core of [TCC.py] / [main.py].

    Numbers.  The program computes with Python floats; the embedding uses
    exact rationals ([Q]) in their place, so rounding error, overflow,
    infinities, NaN and the sign of a zero are outside the model.  The one rounding step the
    program performs on purpose, the rendering [f"{a:.4f}"] of a table
    entry, is modelled (nearest multiple of 1/10000, ties to even).

    Errors.  Python exceptions are values of [exn]; a computation that may
    raise has type [res A].  [LibraryError] stands for an exception raised
    inside a library call, of a class that the program does not name. *)

From Stdlib Require Import Ascii String DecimalString.
From Stdlib Require Import List ZArith QArith Qabs Lia Bool Arith.
From Stdlib Require Import ZifyNat.
Import ListNotations.

(** ** Exceptions *)

Inductive exn : Type :=
| IndexError
| ValueError
| ZeroDivisionError
| LibraryError.

Inductive res (A : Type) : Type :=
| Ok (a : A)
| Raise (e : exn).

Arguments Ok {A} a.
Arguments Raise {A} e.

Definition bind {A B : Type} (m : res A) (k : A -> res B) : res B :=
  match m with
  | Ok a => k a
  | Raise e => Raise e
  end.

Declare Scope res_scope.
Delimit Scope res_scope with res.
Notation "x <- m ;; k" := (bind m (fun x => k))
  (at level 61, m at next level, right associativity) : res_scope.

(** [try: e  except: d] with a bare [except]. *)
Definition try_except {A : Type} (m : res A) (d : A) : A :=
  match m with
  | Ok a => a
  | Raise _ => d
  end.

(** ** Rational helpers *)

Definition Qltb (x y : Q) : bool :=
  (Qnum x * QDen y <? Qnum y * QDen x)%Z.

(** Nearest integer, ties to even. *)
Definition round_half_even (x : Q) : Z :=
  let n := Qnum x in
  let d := QDen x in
  let fl := (n / d)%Z in
  let r := (n mod d)%Z in
  match (2 * r ?= d)%Z with
  | Lt => fl
  | Gt => (fl + 1)%Z
  | Eq => if Z.even fl then fl else (fl + 1)%Z
  end.

(** The number of ten-thousandths printed by [f"{a:.4f}"].  A tie that is
    not a float, such as 1/20000, never reaches the program: it rounds the
    nearby float, which lies on one side of the tie. *)
Definition round4 (a : Q) : Z := round_half_even (a * 10000).

(** The text of [f"{a:.4f}"], from the number [m] of ten-thousandths:
    sign, integer digits, the point and four decimals.  A negative value
    that rounds to zero is printed by the program with its sign, as
    -0.0000; that text and 0.0000 read back as the same number and neither
    is the text 0, which is all that [routh_hurwitz] asks of them. *)
Definition digit_char (d : Z) : ascii := ascii_of_nat (48 + Z.to_nat d).

Definition fmt4_text (m : Z) : string :=
  let a := Z.abs m in
  ((if (m <? 0)%Z then "-" else EmptyString)
   ++ NilZero.string_of_uint (N.to_uint (Z.to_N (a / 10000)))
   ++ "."
   ++ String (digit_char ((a / 1000) mod 10))
        (String (digit_char ((a / 100) mod 10))
           (String (digit_char ((a / 10) mod 10))
              (String (digit_char (a mod 10)) EmptyString))))%string.

(** ** The Routh-Hurwitz analyzer ([routh_hurwitz] in TCC.py) *)

Module Routh.

Local Open Scope res_scope.

(** A table cell is a Python string.  The analyzer produces four kinds. *)
Inductive cell : Type :=
| Label (i : nat)   (* row label: "s⁰", "s¹", f"s^{i}" *)
| Str (c : Q)       (* str(c), the text of a polynomial coefficient *)
| Lit0              (* the literal "0" *)
| Fmt4 (m : Z).     (* f"{a:.4f}", with m = a in ten-thousandths *)

Definition row : Type := list cell.
Definition table : Type := list row.

(** The five texts the analyzer returns as its verdict. *)
Inductive stability : Type :=
| Estavel                          (* "Estável" *)
| MarginalmenteEstavel             (* "Marginalmente Estável (polos no eixo imaginário)" *)
| InstavelPolos (sign_changes : nat) (* f"Instável ({sign_changes} polos no semiplano direito)" *)
| InstavelSinais                   (* "Instável (coeficientes com sinais diferentes)" *)
| InstavelDivisao.                 (* "Instável (divisão por zero na tabela)" *)

(** [float(x)] on a cell: a label is not a number; the text of a
    coefficient reads back as the coefficient. *)
Definition float (x : cell) : res Q :=
  match x with
  | Label _ => Raise ValueError
  | Str c => Ok c
  | Lit0 => Ok 0
  | Fmt4 m => Ok (m # 10000)
  end.

(** [x == "0"].  The text of a [.4f] cell is compared as it is; a label
    starts with "s"; a coefficient text is printed by sympy with its
    decimal point (the loop never compares one: rows 0 and 1 are not
    trimmed). *)
Definition is_lit0 (x : cell) : bool :=
  match x with
  | Lit0 => true
  | Fmt4 m => String.eqb (fmt4_text m) "0"
  | Label _ | Str _ => false
  end.

(** [r[k]] *)
Definition item {A : Type} (r : list A) (k : nat) : res A :=
  match nth_error r k with
  | Some x => Ok x
  | None => Raise IndexError
  end.

Definition float_at (r : row) (k : nat) : res Q :=
  x <- item r k ;; float x.

(** [x / y] on floats *)
Definition div (x y : Q) : res Q :=
  if Qeq_bool y 0 then Raise ZeroDivisionError else Ok (x / y).

(** [coeffs[::2]] and [coeffs[1::2]] *)
Fixpoint evens {A : Type} (l : list A) : list A :=
  match l with
  | [] => []
  | x :: l' =>
      x :: match l' with
           | [] => []
           | _ :: l'' => evens l''
           end
  end.

Definition odds {A : Type} (l : list A) : list A :=
  match l with
  | [] => []
  | _ :: l' => evens l'
  end.

(** [all(c > 0 for c in coeffs) or all(c < 0 for c in coeffs)] *)
Definition same_sign (coeffs : list Q) : bool :=
  forallb (fun c => Qltb 0 c) coeffs || forallb (fun c => Qltb c 0) coeffs.

Definition first_row (coeffs : list Q) : row :=
  Label 0 :: map Str (evens coeffs).

Definition second_row (coeffs : list Q) : row :=
  (Label 1 :: map Str (odds coeffs))
    ++ (if Nat.eqb (length coeffs mod 2) 1 then [Lit0] else []).

(** The table before the loop. *)
Definition init_table (coeffs : list Q) : table :=
  [first_row coeffs]
    ++ (if Nat.ltb 1 (length coeffs) then [second_row coeffs] else []).

(** One entry of a new row: the whole expression sits inside
    [try: ... except: a = 0]. *)
Definition entry (prev_row prev_prev_row : row) (j : nat) : Q :=
  try_except
    (p <- float_at prev_row 1 ;;
     q <- float_at prev_prev_row (j + 1) ;;
     r <- float_at prev_prev_row 1 ;;
     s <- float_at prev_row (j + 1) ;;
     d <- float_at prev_row 1 ;;
     div (p * q - r * s) d)
    0.

(** [current_row], at the moment it is appended. *)
Definition current_row (i : nat) (prev_row prev_prev_row : row) : row :=
  Label i
    :: map (fun j => Fmt4 (round4 (entry prev_row prev_prev_row j)))
           (seq 1 (length prev_prev_row - 2)).

(** [while len(r) > 1 and r[-1] == "0": r = r[:-1]] *)
Fixpoint drop_zeros_rev (r : list cell) : list cell :=
  match r with
  | x :: ((_ :: _) as r') => if is_lit0 x then drop_zeros_rev r' else r
  | _ => r
  end.

Definition drop_zeros (r : row) : row := rev (drop_zeros_rev (rev r)).

(** [table[i] = f(table[i])] *)
Fixpoint modify_at (i : nat) (f : row -> row) (t : table) : res table :=
  match t, i with
  | [], _ => Raise IndexError
  | r :: t', O => Ok (f r :: t')
  | r :: t', S i' => t'' <- modify_at i' f t' ;; Ok (r :: t'')
  end.

(** How one pass of the [for] body ends. *)
Inductive flow : Type :=
| Next (t : table)                    (* fall through to the next [i] *)
| Break (t : table)                   (* [break] *)
| Return (t : table) (s : stability). (* [return table, ...] *)

(** The body of [for i in range(2, n)]. *)
Definition body (i : nat) (t : table) : res flow :=
  prev_row <- item t (i - 1) ;;
  prev_prev_row <- item t (i - 2) ;;
  p <- float_at prev_row 1 ;;
  if Qeq_bool p 0 then Ok (Return t InstavelDivisao)
  else
    let t1 := t ++ [current_row i prev_row prev_prev_row] in
    t2 <- modify_at i drop_zeros t1 ;;
    r <- item t2 i ;;
    if Nat.leb (length r) 1 then Ok (Break t2) else Ok (Next t2).

(** The loop, over the indices still to visit. *)
Fixpoint loop (idx : list nat) (t : table) : res flow :=
  match idx with
  | [] => Ok (Next t)
  | i :: idx' =>
      f <- body i t ;;
      match f with
      | Next t' => loop idx' t'
      | Break t' => Ok (Break t')
      | Return t' s => Ok (Return t' s)
      end
  end.

(** [[float(row[1]) for row in table if len(row) > 1]] *)
Fixpoint first_col (t : table) : res (list Q) :=
  match t with
  | [] => Ok []
  | r :: t' =>
      if Nat.ltb 1 (length r)
      then x <- float_at r 1 ;; xs <- first_col t' ;; Ok (x :: xs)
      else first_col t'
  end.

(** [sum(1 for i in range(len(fc)-1) if fc[i]*fc[i+1] < 0)] *)
Fixpoint sign_changes (fc : list Q) : nat :=
  match fc with
  | x :: ((y :: _) as fc') =>
      (if Qltb (x * y) 0 then 1 else 0) + sign_changes fc'
  | _ => 0
  end.

(** [any(abs(float(row[1])) < 1e-10 for row in table if len(row) > 1)] *)
Definition any_tiny (fc : list Q) : bool :=
  existsb (fun x => Qltb (Qabs x) 1e-10) fc.

(** Lines 481-490: the verdict read off the first column. *)
Definition classify (fc : list Q) : stability :=
  if Nat.ltb 0 (sign_changes fc) then InstavelPolos (sign_changes fc)
  else if any_tiny fc then MarginalmenteEstavel
  else Estavel.

(** [routh_hurwitz], on [coeffs = s_poly.all_coeffs()]. *)
Definition routh_hurwitz (coeffs : list Q) : res (table * stability) :=
  let n := length coeffs in
  if negb (same_sign coeffs) then Ok ([first_row coeffs], InstavelSinais)
  else
    f <- loop (seq 2 (n - 2)) (init_table coeffs) ;;
    match f with
    | Return t s => Ok (t, s)
    | Next t | Break t =>
        fc <- first_col t ;;
        Ok (t, classify fc)
    end.

(** The vocabulary of the specification's [StabilityResult]. *)
Inductive classification : Type :=
| Stable
| MarginallyStable
| Unstable.

Definition classification_of (s : stability) : classification :=
  match s with
  | Estavel => Stable
  | MarginalmenteEstavel => MarginallyStable
  | InstavelPolos _ | InstavelSinais | InstavelDivisao => Unstable
  end.

(** The count of right-half-plane sign changes, when the verdict carries one. *)
Definition reported_count (s : stability) : option nat :=
  match s with
  | InstavelPolos k => Some k
  | _ => None
  end.

Definition verdict (r : res (table * stability)) : option stability :=
  match r with
  | Ok (_, s) => Some s
  | Raise _ => None
  end.

(** *** Well-formed tables

    A row is a label followed by numeric cells; at the head of iteration
    [i] the table has [i] rows and its last row has an entry. *)

Definition numeric (x : cell) : bool :=
  match x with
  | Label _ => false
  | _ => true
  end.

Definition wf_row (r : row) : bool :=
  match r with
  | Label _ :: cs => forallb numeric cs
  | _ => false
  end.

(** The loop invariant at the head of iteration [i]. *)
Record inv (i : nat) (t : table) : Prop := {
  inv_len : length t = i;
  inv_ge : (2 <= i)%nat;
  inv_wf : forallb wf_row t = true;
  inv_last : exists r, item t (i - 1) = Ok r /\ (2 <= length r)%nat
}.

Definition flow_table (f : flow) : table :=
  match f with
  | Next t | Break t | Return t _ => t
  end.

(** The classification rule at one denominator: the analyzer returns, and
    its verdict is the one the rule assigns to the first column of the
    returned table. *)
Definition verdict_from_first_column (coeffs : list Q) : Prop :=
  exists t s fc,
    routh_hurwitz coeffs = Ok (t, s)
    /\ first_col t = Ok fc
    /\ (sign_changes fc = 0%nat ->
        Forall (fun x => ~ Qabs x < 1e-10) fc -> s = Estavel)
    /\ (sign_changes fc = 0%nat ->
        Exists (fun x => Qabs x < 1e-10) fc -> s = MarginalmenteEstavel)
    /\ ((0 < sign_changes fc)%nat -> s = InstavelPolos (sign_changes fc)).

End Routh.

(** ** Coefficient parsing ([parse_coefficients] in TCC.py and main.py) *)

Module Parse.

(** A Python [str], as the sequence of its characters (code points below
    256). *)
Definition str : Type := list ascii.

(** [c.isspace()] *)
Definition is_space (c : ascii) : bool :=
  let n := nat_of_ascii c in
  ((9 <=? n) && (n <=? 13)) || ((28 <=? n) && (n <=? 32))
  || (n =? 133) || (n =? 160).

(** [c in "[]"] *)
Definition is_bracket (c : ascii) : bool :=
  Ascii.eqb c "["%char || Ascii.eqb c "]"%char.

Fixpoint lstrip (p : ascii -> bool) (s : str) : str :=
  match s with
  | [] => []
  | c :: s' => if p c then lstrip p s' else s
  end.

Definition rstrip (p : ascii -> bool) (s : str) : str :=
  rev (lstrip p (rev s)).

(** [s.strip(chars)], with [p] the membership test of [chars];
    [s.strip()] is [strip is_space s]. *)
Definition strip (p : ascii -> bool) (s : str) : str :=
  rstrip p (lstrip p s).

(** [s.split()]: the maximal runs of non-space characters.  [cur] is the
    run being read, last character first. *)
Fixpoint split_from (cur : str) (s : str) : list str :=
  match s with
  | [] =>
      match cur with
      | [] => []
      | _ => [rev cur]
      end
  | c :: s' =>
      if is_space c
      then match cur with
           | [] => split_from [] s'
           | _ => rev cur :: split_from [] s'
           end
      else split_from (c :: cur) s'
  end.

Definition split (s : str) : list str := split_from [] s.

Section Parsing.

(** Python's [float] on a text: [None] stands for [ValueError]. *)
Variable pyfloat : str -> option Q.

(** [[float(x.strip()) for x in tokens]]; the first [ValueError] ends it. *)
Fixpoint floats (tokens : list str) : option (list Q) :=
  match tokens with
  | [] => Some []
  | x :: rest =>
      match pyfloat (strip is_space x) with
      | None => None
      | Some v =>
          match floats rest with
          | None => None
          | Some vs => Some (v :: vs)
          end
      end
  end.

(** [parse_coefficients]: [None] is the value returned by the
    [except ValueError] branch. *)
Definition parse_coefficients (entry_text : str) : option (list Q) :=
  let clean_text := strip is_bracket entry_text in
  floats (split clean_text).

End Parsing.

(** A reader of plain decimal integers ("12", "-3", "+7"), to run the
    parser on examples; Python's [float] accepts these texts too. *)
Definition digit (c : ascii) : option Z :=
  let n := nat_of_ascii c in
  if (48 <=? n) && (n <=? 57) then Some (Z.of_nat (n - 48)) else None.

Fixpoint digits (acc : Z) (s : str) : option Z :=
  match s with
  | [] => Some acc
  | c :: s' =>
      match digit c with
      | Some d => digits (10 * acc + d) s'
      | None => None
      end
  end.

Definition integer_float (s : str) : option Q :=
  let number (s : str) :=
    match s with
    | [] => None
    | _ => digits 0 s
    end in
  match s with
  | "-"%char :: s' => option_map (fun z => inject_Z (- z)) (number s')
  | "+"%char :: s' => option_map inject_Z (number s')
  | _ => option_map inject_Z (number s)
  end.

End Parse.

(** ** Ramp and parabola responses ([update_noctrl_plots],
       [update_ctrl_plots]) *)

Module Sim.

(** [np.linspace(start, stop, num)]: [num] samples, [k]-th sample
    [start + k * (stop - start) / (num - 1)]. *)
Definition linspace (start stop : Q) (num : nat) : list Q :=
  let step := (stop - start) / inject_Z (Z.of_nat (num - 1)) in
  map (fun k => start + inject_Z (Z.of_nat k) * step) (seq 0 num).

Inductive input_type : Type :=
| Rampa
| Parabola.

(** The reference [u] built from the grid [t]: [u = t] or
    [u = (t**2) / 2]. *)
Definition reference_input (i : input_type) (t : list Q) : list Q :=
  match i with
  | Rampa => t
  | Parabola => map (fun x => x ^ 2 / 2) t
  end.

(** What is drawn: [plot(t, y)] and [plot(t, u)]. *)
Record curves : Type := {
  time : list Q;
  output : list Q;
  reference : list Q
}.

Section Response.

(** A closed-loop system, and [scipy.signal.lsim] on it: given the system,
    the input samples and the time samples, it returns the time samples
    and the output samples (the state trajectory is discarded by the
    callers), or raises.  [lsim] is scipy's, not the program's: nothing is
    assumed of it. *)
Variable system : Type.
Variable lsim : system -> list Q -> list Q -> res (list Q * list Q).

(** The [Rampa] and [Parábola] branches:
    [t = np.linspace(0, 10, 1000); u = ...; t, y, _ = scipy_lsim(sys, u, t)],
    then [plot(t, y)] and [plot(t, u)], both against the [t] that [lsim]
    returned. *)
Definition response (i : input_type) (sys : system) : res curves :=
  let t := linspace 0 10 1000 in
  let u := reference_input i t in
  (r <- lsim sys u t ;;
   Ok {| time := fst r; output := snd r; reference := u |})%res.

End Response.

Arguments response {system} lsim i sys.

(** Two stand-ins for [lsim], to run the theorem.  [refusing_lsim] raises
    on whatever it is handed: scipy documents the system argument of
    [lsim] as an instance of its own [lti] class or a tuple of arrays,
    while the callers hand it the system that python-control's [feedback]
    built.  [still_lsim] hands back the time samples it was given, with an
    output that stays at zero. *)
Definition refusing_lsim {system : Type} (_ : system) (u t : list Q)
  : res (list Q * list Q) :=
  Raise LibraryError.

Definition still_lsim {system : Type} (_ : system) (u t : list Q)
  : res (list Q * list Q) :=
  Ok (t, map (fun _ => 0) t).

End Sim.

(** ** Transfer functions and the controller ([get_controller_tf]) *)

Module Control.

(** Numerator and denominator coefficients, highest power first. *)
Record TransferFunction : Type := {
  num : list Q;
  den : list Q
}.

(** Modelled from the spec: [tf], the product of transfer functions and
    [feedback] belong to the python-control package, which is not under
    src/.  Section 4.1 of the specification gives them: [normalize] strips
    leading zero coefficients and refuses a zero denominator; [series]
    convolves numerators and denominators; [feedback] has numerator
    [G.num * H.den] and denominator [G.den * H.den + G.num * H.num].  The
    sum of two polynomials pairs coefficients of the same power, that is,
    the lists are aligned at their last (constant) coefficient, as the
    specification's sample [1/(s+1)] with closed loop [1/(s+2)]
    requires. *)

(** Position-wise sum of two coefficient lists; the longer list keeps its
    tail (the shorter one counts as extended by zeros at its end). *)
Fixpoint add_positions (p q : list Q) : list Q :=
  match p, q with
  | [], _ => q
  | _, [] => p
  | a :: p', b :: q' => (a + b) :: add_positions p' q'
  end.

(** Product of two polynomials given lowest power first. *)
Fixpoint mul_low (p q : list Q) : list Q :=
  match p with
  | [] => []
  | a :: p' => add_positions (map (Qmult a) q) (0 :: mul_low p' q)
  end.

(** Modelled from the spec: the sum of two polynomials (missing:
    python-control's use of [polyadd]); coefficients of the same power are
    added. *)
Definition polyadd (p q : list Q) : list Q :=
  rev (add_positions (rev p) (rev q)).

(** Modelled from the spec: "polynomial convolution" (missing:
    python-control's use of [polymul]). *)
Definition convolve (p q : list Q) : list Q :=
  rev (mul_low (rev p) (rev q)).

(** Modelled from the spec: "strips leading zero coefficients" (missing:
    the constructor of python-control's [TransferFunction]); the last
    coefficient stays. *)
Fixpoint strip_leading (p : list Q) : list Q :=
  match p with
  | c :: ((_ :: _) as p') => if Qeq_bool c 0 then strip_leading p' else p
  | _ => p
  end.

(** Modelled from the spec: [normalize(num, den)] (missing: the
    constructor of python-control's [TransferFunction]); [None] is
    DegenerateSystem, an empty or zero denominator. *)
Definition normalize (n d : list Q) : option TransferFunction :=
  match strip_leading d with
  | [] => None
  | c :: d' =>
      if Qeq_bool c 0 then None
      else Some {| num := strip_leading n; den := c :: d' |}
  end.

(** Modelled from the spec: [tf(num, den)] of python-control builds a
    transfer function, normalized. *)
Definition tf (n d : list Q) : option TransferFunction := normalize n d.

(** Modelled from the spec: [series(A, B)], the product [A * B] of
    python-control. *)
Definition series (A B : TransferFunction) : TransferFunction :=
  {| num := convolve (num A) (num B); den := convolve (den A) (den B) |}.

(** Modelled from the spec: a scalar used as a transfer function, as
    python-control converts the [kp] of [kp * G] and the [1] of
    [feedback(G, 1)]. *)
Definition gain (k : Q) : TransferFunction := {| num := [k]; den := [1] |}.

(** Modelled from the spec: [feedback(G, H)] of python-control, negative
    feedback. *)
Definition feedback (G H : TransferFunction) : option TransferFunction :=
  normalize (convolve (num G) (den H))
            (polyadd (convolve (den G) (den H)) (convolve (num G) (num H))).

(** The value of a polynomial at a point. *)
Fixpoint eval_low (p : list Q) (x : Q) : Q :=
  match p with
  | [] => 0
  | a :: p' => a + x * eval_low p' x
  end.

Definition eval (p : list Q) (x : Q) : Q := eval_low (rev p) x.

(** The entries of the controller form. *)
Inductive controller_type : Type :=
| P
| PI
| PD
| PID
| Avanco
| Atraso
| AvancoAtraso
| Other.

Record controller_form : Type := {
  ctrl_type : controller_type;
  kp_entry : Parse.str;
  ki_entry : Parse.str;
  kd_entry : Parse.str;
  num_c_entry : Parse.str;
  den_c_entry : Parse.str;
  num_at_entry : Parse.str;
  den_at_entry : Parse.str
}.

Section Controller.

Variable pyfloat : Parse.str -> option Q.

Let parse_coefficients := Parse.parse_coefficients pyfloat.

(** [get_controller_tf].  [None] is the answer when the function returns
    [None] (a text that [float] refuses, a coefficient list that does not
    parse, a type outside the seven) or when [tf] refuses the
    coefficients. *)
Definition get_controller_tf (f : controller_form) : option TransferFunction :=
  match pyfloat (kp_entry f) with
  | None => None
  | Some kp =>
      match ctrl_type f with
      | P => tf [kp] [1]
      | PI =>
          match pyfloat (ki_entry f) with
          | None => None
          | Some ki => tf [kp; ki] [1; 0]
          end
      | PD =>
          match pyfloat (kd_entry f) with
          | None => None
          | Some kd => tf [kd; kp] [1]
          end
      | PID =>
          match pyfloat (ki_entry f) with
          | None => None
          | Some ki =>
              match pyfloat (kd_entry f) with
              | None => None
              | Some kd => tf [kd; kp; ki] [1; 0]
              end
          end
      | Avanco | Atraso =>
          match parse_coefficients (num_c_entry f),
                parse_coefficients (den_c_entry f) with
          | Some num_c, Some den_c => tf (map (fun x => x * kp) num_c) den_c
          | _, _ => None
          end
      | AvancoAtraso =>
          match parse_coefficients (num_c_entry f),
                parse_coefficients (den_c_entry f),
                parse_coefficients (num_at_entry f),
                parse_coefficients (den_at_entry f) with
          | Some num_c, Some den_c, Some num_at, Some den_at =>
              match tf num_c den_c, tf num_at den_at with
              | Some G_avanco, Some G_atraso =>
                  (* kp * G_avanco * G_atraso *)
                  Some (series (series (gain kp) G_avanco) G_atraso)
              | _, _ => None
              end
          | _, _, _, _ => None
          end
      | Other => None
      end
  end.

End Controller.

(** *** Vocabulary of the statements *)

(** Coefficient lists equal entry by entry. *)
Definition peq (p q : list Q) : Prop := Forall2 Qeq p q.

(** Coefficient lists of the same polynomial. *)
Definition same_polynomial (p q : list Q) : Prop :=
  forall x, eval p x == eval q x.

Definition same_tf (A B : TransferFunction) : Prop :=
  same_polynomial (num A) (num B) /\ same_polynomial (den A) (den B).

(** [k * G]: the gain multiplies the numerator. *)
Definition scale (k : Q) (G : TransferFunction) : TransferFunction :=
  {| num := map (Qmult k) (num G); den := den G |}.

(** The plant [1 / (s + 1)] of the specification's sample. *)
Definition first_order_lag : TransferFunction := {| num := [1]; den := [1; 1] |}.

(** The form "Kp = 2, lead (s+1)/(s+2), lag (s+3)/(s+4)". *)
Definition sample_form : controller_form :=
  {| ctrl_type := AvancoAtraso;
     kp_entry := list_ascii_of_string "2";
     ki_entry := [];
     kd_entry := [];
     num_c_entry := list_ascii_of_string "1 1";
     den_c_entry := list_ascii_of_string "1 2";
     num_at_entry := list_ascii_of_string "1 3";
     den_at_entry := list_ascii_of_string "1 4" |}.

End Control.

(** * The rest of the window *)

(** ** The shape of the Routh-Hurwitz table *)

Module RouthTable.

Import Routh.

(** The length of row [k] (label included) in a table built from
    [coeffs]: rows 0 and 1 have the length of the first row, and each
    later pair of rows is one shorter. *)
Definition row_width (coeffs : list Q) (k : nat) : nat :=
  (length (first_row coeffs) - k / 2)%nat.

Definition shaped (coeffs : list Q) (t : table) : Prop :=
  forall k r, nth_error t k = Some r -> length r = row_width coeffs k.

(** Row 1 holds the coefficients of odd index, and every later row is a
    label followed by [.4f] texts. *)
Definition built (coeffs : list Q) (t : table) : Prop :=
  nth_error t 1 = Some (second_row coeffs)
  /\ forall k r, (2 <= k)%nat -> nth_error t k = Some r ->
       exists i ms, r = Label i :: map Fmt4 ms.

End RouthTable.

(** ** The verdict shown by [analyze_stability] *)

Module Display.

Import Routh.
Local Open Scope string_scope.

(** The text [routh_hurwitz] returns for each verdict. *)
Definition stability_text (s : stability) : string :=
  match s with
  | Estavel => "Estável"
  | MarginalmenteEstavel =>
      "Marginalmente Estável (polos no eixo imaginário)"
  | InstavelPolos sign_changes =>
      "Instável (" ++ NilZero.string_of_uint (Nat.to_uint sign_changes)
        ++ " polos no semiplano direito)"
  | InstavelSinais => "Instável (coeficientes com sinais diferentes)"
  | InstavelDivisao => "Instável (divisão por zero na tabela)"
  end.

(** The colour [analyze_stability] gives to the result label: green when
    the text equals "Estável", yellow when it equals
    "Marginalmente Estável", red otherwise. *)
Definition result_color (stability : string) : string :=
  if String.eqb stability "Estável" then "#2ecc71"
  else if String.eqb stability "Marginalmente Estável" then "#f39c12"
  else "#e74c3c".

End Display.

(** ** Texts put in the entries, read back *)

Module Entries.

Import Parse.

(** [str(n)] for a Python [int]. *)
Definition str_int (n : Z) : str :=
  list_ascii_of_string (NilZero.string_of_int (Z.to_int n)).

(** [" ".join(texts)] *)
Fixpoint join_space (texts : list str) : str :=
  match texts with
  | [] => []
  | [x] => x
  | x :: rest => x ++ " "%char :: join_space rest
  end.

(** [load_example]: the text put in an entry for a list of integer
    coefficients, [" ".join(map(str, coefficients))]. *)
Definition example_text (coefficients : list Z) : str :=
  join_space (map str_int coefficients).

(** A token that [split] gives back as it is. *)
Definition clean (tok : str) : Prop :=
  tok <> [] /\ Forall (fun c => is_space c = false) tok.

(** The characters of the decimal text of an integer. *)
Definition sign_or_digit (c : ascii) : Prop :=
  is_space c = false /\ is_bracket c = false.

End Entries.

(** ** The controller form *)

Module Loop.

Import Control.

(** The entries of the controller form. *)
Inductive field : Type :=
| Kp
| Ki
| Kd
| NumC
| DenC
| NumAt
| DenAt.

Definition entry_of (fld : field) (f : controller_form) : Parse.str :=
  match fld with
  | Kp => kp_entry f
  | Ki => ki_entry f
  | Kd => kd_entry f
  | NumC => num_c_entry f
  | DenC => den_c_entry f
  | NumAt => num_at_entry f
  | DenAt => den_at_entry f
  end.

(** [update_controller_fields]: the entries it creates for a controller
    type.  Kp always; Ki for PI and PID; Kd for PD and PID; the numerator
    and denominator for Avanço, Atraso and Avanço-Atraso; the lag pair for
    Avanço-Atraso. *)
Definition created (c : controller_type) (fld : field) : bool :=
  match fld with
  | Kp => true
  | Ki => match c with PI | PID => true | _ => false end
  | Kd => match c with PD | PID => true | _ => false end
  | NumC | DenC =>
      match c with Avanco | Atraso | AvancoAtraso => true | _ => false end
  | NumAt | DenAt => match c with AvancoAtraso => true | _ => false end
  end.

(** Forms used as examples. *)

(** A PI form and the same form with other texts in the entries that are
    not shown for PI. *)
Definition pi_form (hidden : Parse.str) : controller_form :=
  {| ctrl_type := PI;
     kp_entry := list_ascii_of_string "2";
     ki_entry := list_ascii_of_string "3";
     kd_entry := hidden;
     num_c_entry := hidden;
     den_c_entry := hidden;
     num_at_entry := hidden;
     den_at_entry := hidden |}.

(** A PID form with Kp = 2, Ki = 3, Kd = 5. *)
Definition pid_form : controller_form :=
  {| ctrl_type := PID;
     kp_entry := list_ascii_of_string "2";
     ki_entry := list_ascii_of_string "3";
     kd_entry := list_ascii_of_string "5";
     num_c_entry := [];
     den_c_entry := [];
     num_at_entry := [];
     den_at_entry := [] |}.

(** A lag form "Kp = 2, (s + 3) / (s + 4)". *)
Definition lag_form : controller_form :=
  {| ctrl_type := Atraso;
     kp_entry := list_ascii_of_string "2";
     ki_entry := [];
     kd_entry := [];
     num_c_entry := list_ascii_of_string "1 3";
     den_c_entry := list_ascii_of_string "1 4";
     num_at_entry := [];
     den_at_entry := [] |}.

End Loop.

(** ** The font size ([increase_font], [decrease_font]) *)

Module Font.

(** [self.current_font_size = 9] in [__init__]. *)
Definition initial_font_size : Z := 9.

Definition increase_font (current_font_size : Z) : Z :=
  if (current_font_size <? 14)%Z then (current_font_size + 1)%Z
  else current_font_size.

Definition decrease_font (current_font_size : Z) : Z :=
  if (current_font_size >? 8)%Z then (current_font_size - 1)%Z
  else current_font_size.

(** The two menu commands "Aumentar Fonte" and "Diminuir Fonte". *)
Inductive command : Type :=
| Aumentar
| Diminuir.

Definition step (size : Z) (c : command) : Z :=
  match c with
  | Aumentar => increase_font size
  | Diminuir => decrease_font size
  end.

Definition run (commands : list command) (size : Z) : Z :=
  fold_left step commands size.

(** [update_font_size]: the sizes of the header, title and button fonts. *)
Definition header_size (size : Z) : Z := (size + 2)%Z.
Definition title_size (size : Z) : Z := (size + 4)%Z.
Definition button_size (size : Z) : Z := (size + 1)%Z.

End Font.

(** * Properties *)

(** ** Rational comparisons *)

Lemma Qltb_lt (x y : Q) : Qltb x y = true <-> (x < y)%Q.
Proof. unfold Qltb, Qlt. apply Z.ltb_lt. Qed.

(** ** The Routh-Hurwitz analyzer *)

Module RouthFacts.

Import Routh.
Local Open Scope res_scope.

(** *** Small facts about the helpers *)

Lemma forallb_Qltb_pos (l : list Q) :
  forallb (fun c => Qltb 0 c) l = true <-> Forall (fun c => 0 < c) l.
Proof.
  rewrite forallb_forall, Forall_forall.
  split; intros H x Hx; apply Qltb_lt; auto.
Qed.

Lemma forallb_Qltb_neg (l : list Q) :
  forallb (fun c => Qltb c 0) l = true <-> Forall (fun c => c < 0) l.
Proof.
  rewrite forallb_forall, Forall_forall.
  split; intros H x Hx; apply Qltb_lt; auto.
Qed.

Lemma same_sign_iff (coeffs : list Q) :
  same_sign coeffs = true <->
  Forall (fun c => 0 < c) coeffs \/ Forall (fun c => c < 0) coeffs.
Proof.
  unfold same_sign. rewrite orb_true_iff.
  now rewrite forallb_Qltb_pos, forallb_Qltb_neg.
Qed.

Lemma item_app_last {A : Type} (l : list A) (x : A) :
  item (l ++ [x]) (length l) = Ok x.
Proof.
  unfold item. rewrite nth_error_app2 by lia.
  now rewrite Nat.sub_diag.
Qed.

Lemma item_lt_Ok {A : Type} (l : list A) (k : nat) :
  (k < length l)%nat -> exists x, item l k = Ok x.
Proof.
  intros H. unfold item.
  destruct (nth_error l k) eqn:E; [eauto|].
  apply nth_error_None in E. lia.
Qed.

Lemma modify_at_last (f : row -> row) (t : table) (r : row) :
  modify_at (length t) f (t ++ [r]) = Ok (t ++ [f r]).
Proof.
  induction t as [|r0 t IH]; simpl; [reflexivity|].
  now rewrite IH.
Qed.

(** The trimming loop looks for the text "0"; a row without that text is
    left as it is. *)
Lemma drop_zeros_rev_id (r : list cell) :
  match r with x :: _ => is_lit0 x = false | [] => True end ->
  drop_zeros_rev r = r.
Proof.
  destruct r as [|x [|y r]]; cbn [drop_zeros_rev]; auto.
  now intros ->.
Qed.

Lemma string_length_append (s1 s2 : string) :
  String.length (s1 ++ s2) = (String.length s1 + String.length s2)%nat.
Proof. induction s1 as [|c s1 IH]; simpl; [reflexivity|]. now rewrite IH. Qed.

(** A [.4f] text has at least five characters; it is never "0". *)
Lemma fmt4_text_length (m : Z) : (5 <= String.length (fmt4_text m))%nat.
Proof.
  unfold fmt4_text. rewrite !string_length_append. simpl. lia.
Qed.

Lemma is_lit0_Fmt4 (m : Z) : is_lit0 (Fmt4 m) = false.
Proof.
  unfold is_lit0. apply String.eqb_neq. intros E.
  pose proof (fmt4_text_length m) as H. rewrite E in H. simpl in H. lia.
Qed.

Lemma drop_zeros_current_row (i : nat) (prev_row prev_prev_row : row) :
  drop_zeros (current_row i prev_row prev_prev_row)
  = current_row i prev_row prev_prev_row.
Proof.
  unfold drop_zeros. rewrite drop_zeros_rev_id.
  - apply rev_involutive.
  - unfold current_row.
    destruct (seq 1 (length prev_prev_row - 2)) as [|j js _] using rev_ind.
    + reflexivity.
    + rewrite map_app. cbn [map rev]. rewrite rev_app_distr. cbn [rev app].
      apply is_lit0_Fmt4.
Qed.

(** *** Well-formed tables: the lookups of the loop never fail *)

Lemma float_numeric (x : cell) :
  numeric x = true -> exists q, float x = Ok q.
Proof. destruct x; simpl; intros H; try discriminate; eauto. Qed.

Lemma wf_row_float_at (r : row) (k : nat) :
  wf_row r = true -> (1 <= k < length r)%nat ->
  exists q, float_at r k = Ok q.
Proof.
  destruct r as [|[l| | |] cs]; simpl; try discriminate.
  intros Hcs [H1 H2].
  destruct k as [|k]; [lia|].
  unfold float_at, item. simpl.
  destruct (nth_error cs k) as [x|] eqn:E.
  - simpl. apply float_numeric.
    rewrite forallb_forall in Hcs. apply Hcs.
    eapply nth_error_In; eauto.
  - apply nth_error_None in E. lia.
Qed.

Lemma forallb_numeric_Str (l : list Q) : forallb numeric (map Str l) = true.
Proof. induction l; simpl; auto. Qed.

Lemma wf_first_row (coeffs : list Q) : wf_row (first_row coeffs) = true.
Proof. apply forallb_numeric_Str. Qed.

Lemma wf_second_row (coeffs : list Q) : wf_row (second_row coeffs) = true.
Proof.
  unfold second_row. simpl. rewrite forallb_app, forallb_numeric_Str.
  now destruct (Nat.eqb _ _).
Qed.

Lemma wf_current_row (i : nat) (prev_row prev_prev_row : row) :
  wf_row (current_row i prev_row prev_prev_row) = true.
Proof.
  unfold current_row. simpl.
  induction (seq 1 (length prev_prev_row - 2)); simpl; auto.
Qed.

Lemma wf_init_table (coeffs : list Q) :
  forallb wf_row (init_table coeffs) = true.
Proof.
  unfold init_table. rewrite forallb_app.
  cbn [forallb]. rewrite wf_first_row.
  destruct (Nat.ltb 1 (length coeffs)); cbn [forallb]; auto.
  now rewrite wf_second_row.
Qed.

Lemma first_col_total (t : table) :
  forallb wf_row t = true -> exists fc, first_col t = Ok fc.
Proof.
  induction t as [|r t IH]; simpl; [eauto|].
  rewrite andb_true_iff. intros [Hr Ht].
  destruct (IH Ht) as [fc Hfc].
  destruct (Nat.ltb 1 (length r)) eqn:E; [|eauto].
  apply Nat.ltb_lt in E.
  destruct (wf_row_float_at r 1%nat Hr) as [q Hq]; [lia|].
  rewrite Hq, Hfc. simpl. eauto.
Qed.

(** What one pass of the body does once its lookups succeed. *)
Lemma body_eq (i : nat) (t : table) (prev_row prev_prev_row : row) (p : Q) :
  length t = i ->
  item t (i - 1) = Ok prev_row ->
  item t (i - 2) = Ok prev_prev_row ->
  float_at prev_row 1 = Ok p ->
  body i t =
  Ok (if Qeq_bool p 0 then Return t InstavelDivisao
      else
        let r := current_row i prev_row prev_prev_row in
        if Nat.leb (length r) 1 then Break (t ++ [r]) else Next (t ++ [r])).
Proof.
  intros Hlen Hprev Hpp Hp. unfold body.
  rewrite Hprev. cbn [bind]. rewrite Hpp. cbn [bind]. rewrite Hp. cbn [bind].
  cbv zeta. destruct (Qeq_bool p 0); [reflexivity|].
  subst i. rewrite modify_at_last, drop_zeros_current_row.
  cbn [bind]. rewrite item_app_last. cbn [bind].
  now destruct (Nat.leb _ 1).
Qed.

Lemma inv_lookups (i : nat) (t : table) :
  inv i t ->
  exists prev_row prev_prev_row p,
    item t (i - 1) = Ok prev_row /\
    item t (i - 2) = Ok prev_prev_row /\
    float_at prev_row 1 = Ok p.
Proof.
  intros [Hlen Hge Hwf [r [Hr Hr2]]].
  destruct (item_lt_Ok t (i - 2)) as [pp Hpp]; [lia|].
  assert (Hwr : wf_row r = true).
  { rewrite forallb_forall in Hwf. apply Hwf.
    unfold item in Hr. destruct (nth_error t (i - 1)) eqn:E; [|discriminate].
    inversion Hr; subst. eapply nth_error_In; eauto. }
  destruct (wf_row_float_at r 1%nat Hwr) as [p Hp]; [lia|].
  eauto 10.
Qed.

Lemma body_inv (i : nat) (t : table) :
  inv i t ->
  exists f, body i t = Ok f /\
    forallb wf_row (flow_table f) = true /\
    match f with
    | Next t' => inv (S i) t'
    | _ => True
    end.
Proof.
  intros Hinv.
  destruct (inv_lookups i t Hinv) as (prev & pp & p & Hprev & Hpp & Hp).
  destruct Hinv as [Hlen Hge Hwf _].
  rewrite (body_eq i t prev pp p Hlen Hprev Hpp Hp).
  eexists; split; [reflexivity|].
  assert (Hwf' : forallb wf_row (t ++ [current_row i prev pp]) = true).
  { rewrite forallb_app, Hwf. cbn [forallb andb]. now rewrite wf_current_row. }
  cbv zeta.
  destruct (Qeq_bool p 0); [cbn [flow_table]; auto|].
  destruct (Nat.leb (length (current_row i prev pp)) 1) eqn:E;
    cbn [flow_table]; [auto|].
  split; [exact Hwf'|].
  apply Nat.leb_gt in E.
  constructor.
  - rewrite length_app. simpl. lia.
  - lia.
  - exact Hwf'.
  - exists (current_row i prev pp). split; [|lia].
    replace (S i - 1)%nat with (length t) by lia.
    apply item_app_last.
Qed.

Lemma loop_inv (k i : nat) (t : table) :
  inv i t ->
  exists f, loop (seq i k) t = Ok f /\
    forallb wf_row (flow_table f) = true /\
    match f with
    | Next t' => inv (i + k) t'
    | _ => True
    end.
Proof.
  revert i t. induction k as [|k IH]; intros i t Hinv; simpl.
  - exists (Next t). rewrite Nat.add_0_r.
    split; [reflexivity|]. split; [apply Hinv|exact Hinv].
  - destruct (body_inv i t Hinv) as (f & Hf & Hwf & Hnext).
    rewrite Hf. simpl.
    destruct f as [t'|t'|t' s]; simpl in *.
    + destruct (IH (S i) t' Hnext) as (f' & Hf' & Hwf' & Hn').
      exists f'. repeat split; auto.
      now rewrite <- Nat.add_succ_comm.
    + eauto.
    + eauto.
Qed.

Lemma odds_nonempty {A : Type} (l : list A) :
  (2 <= length l)%nat -> (1 <= length (odds l))%nat.
Proof. destruct l as [|a [|b l]]; simpl; lia. Qed.

Lemma inv_init (coeffs : list Q) :
  (3 <= length coeffs)%nat -> inv 2 (init_table coeffs).
Proof.
  intros Hn. unfold init_table.
  assert (E : Nat.ltb 1 (length coeffs) = true) by (apply Nat.ltb_lt; lia).
  constructor.
  - rewrite E. reflexivity.
  - lia.
  - apply wf_init_table.
  - rewrite E. simpl. exists (second_row coeffs). split; [reflexivity|].
    unfold second_row. rewrite length_app. simpl. rewrite length_map.
    pose proof (odds_nonempty coeffs). lia.
Qed.

Lemma loop_app (l1 l2 : list nat) (t : table) :
  loop (l1 ++ l2) t =
  (f <- loop l1 t ;;
   match f with
   | Next t' => loop l2 t'
   | _ => Ok f
   end).
Proof.
  revert t. induction l1 as [|i l1 IH]; intros t; simpl.
  - reflexivity.
  - destruct (body i t) as [[t'|t'|t' s]|e]; simpl; auto.
Qed.

Lemma seq_split (a n : nat) (l1 l2 : list nat) (x : nat) :
  seq a n = l1 ++ x :: l2 ->
  l1 = seq a (length l1) /\ x = (a + length l1)%nat.
Proof.
  revert a n. induction l1 as [|y l1 IH]; intros a n H.
  - destruct n; simpl in *; [discriminate|].
    inversion H; subst. split; [reflexivity|lia].
  - destruct n; simpl in *; [discriminate|].
    inversion H; subst.
    destruct (IH _ _ H2) as [E1 E2].
    split; [now rewrite <- E1|lia].
Qed.

(** **** The analyzer always returns *)
Lemma routh_hurwitz_total (coeffs : list Q) :
  exists t s, routh_hurwitz coeffs = Ok (t, s).
Proof.
  unfold routh_hurwitz.
  destruct (same_sign coeffs); simpl; [|eauto].
  assert (H : exists f, loop (seq 2 (length coeffs - 2)) (init_table coeffs) = Ok f
                        /\ forallb wf_row (flow_table f) = true).
  { destruct (le_lt_dec 3 (length coeffs)) as [Hn|Hn].
    - destruct (loop_inv (length coeffs - 2) 2 _ (inv_init coeffs Hn))
        as (f & Hf & Hwf & _). eauto.
    - replace (length coeffs - 2)%nat with 0%nat by lia. simpl.
      exists (Next (init_table coeffs)). split; [reflexivity|].
      apply wf_init_table. }
  destruct H as (f & Hf & Hwf). rewrite Hf. simpl.
  destruct f as [t|t|t s]; simpl in *; eauto;
    destruct (first_col_total t Hwf) as [fc Hfc]; rewrite Hfc; simpl; eauto.
Qed.

Lemma body_return (i : nat) (t t' : table) (s : stability) :
  body i t = Ok (Return t' s) -> t' = t /\ s = InstavelDivisao.
Proof.
  unfold body.
  destruct (item t (i - 1)) as [prev|]; cbn [bind]; [|discriminate].
  destruct (item t (i - 2)) as [pp|]; cbn [bind]; [|discriminate].
  destruct (float_at prev 1) as [p|]; cbn [bind]; [|discriminate].
  destruct (Qeq_bool p 0).
  - intros H. inversion H. auto.
  - cbv zeta.
    destruct (modify_at i drop_zeros _) as [t2|]; cbn [bind]; [|discriminate].
    destruct (item t2 i) as [r|]; cbn [bind]; [|discriminate].
    destruct (Nat.leb (length r) 1); discriminate.
Qed.

Lemma loop_return (idx : list nat) (t t' : table) (s : stability) :
  loop idx t = Ok (Return t' s) -> s = InstavelDivisao.
Proof.
  revert t. induction idx as [|i idx IH]; intros t; simpl; [discriminate|].
  destruct (body i t) as [[t1|t1|t1 s1]|e] eqn:E; cbn [bind];
    try discriminate.
  - apply IH.
  - intros H. inversion H; subst. now apply body_return in E.
Qed.

Lemma any_tiny_Exists (fc : list Q) :
  any_tiny fc = true <-> Exists (fun x => Qabs x < 1e-10) fc.
Proof.
  unfold any_tiny. rewrite existsb_exists, Exists_exists.
  split; intros (x & Hx & H); exists x; split; auto; now apply Qltb_lt.
Qed.

(** A sign change, as the code counts it, is a pair of neighbours of
    opposite strict signs. *)
Lemma product_negative_iff (x y : Q) :
  Qltb (x * y) 0 = true <-> (x < 0 /\ 0 < y) \/ (0 < x /\ y < 0).
Proof.
  rewrite Qltb_lt. destruct x as [a b], y as [c d].
  unfold Qlt, Qmult. simpl.
  rewrite !Z.mul_1_r. apply Z.lt_mul_0.
Qed.

(** *** The verdicts on the specification's sample polynomials *)

(** C1, as the code has it: on the coefficients [1, 0, 1] the strict
    same-sign test fails at the zero coefficient, so the analyzer answers
    "Instável (coeficientes com sinais diferentes)" and returns the
    initial row alone. *)
Theorem rh_1_0_1_mixed_sign :
  routh_hurwitz [1; 0; 1] = Ok ([[Label 0; Str 1; Str 1]], InstavelSinais)
  /\ classification_of InstavelSinais = Unstable.
Proof. split; reflexivity. Qed.

(** C1, as stated, fails: the verdict on [1, 0, 1] is not
    MarginallyStable. *)
Lemma rh_1_0_1_not_marginal :
  ~ (exists s, verdict (routh_hurwitz [1; 0; 1]) = Some s
               /\ classification_of s = MarginallyStable).
Proof.
  intros (s & Hs & Hc). vm_compute in Hs. inversion Hs; subst.
  discriminate.
Qed.

(** C6, as the code has it: on the coefficients [1, -1, 1] the same-sign
    test fails, so the analyzer answers Unstable with the mixed-sign reason,
    returns the initial row alone and reports no sign-change count. *)
Theorem rh_1_m1_1_mixed_sign :
  routh_hurwitz [1; -1; 1] = Ok ([[Label 0; Str 1; Str 1]], InstavelSinais)
  /\ classification_of InstavelSinais = Unstable
  /\ reported_count InstavelSinais = None.
Proof. repeat split; reflexivity. Qed.

(** C6, as stated, fails: the verdict on [1, -1, 1] carries no count
    equal to 1. *)
Lemma rh_1_m1_1_no_count :
  ~ (exists s, verdict (routh_hurwitz [1; -1; 1]) = Some s
               /\ classification_of s = Unstable
               /\ reported_count s = Some 1%nat).
Proof.
  intros (s & Hs & _ & Hc). vm_compute in Hs. inversion Hs; subst.
  discriminate.
Qed.

(** *** The sign precondition *)

(** C3: coefficients that are neither all strictly positive nor all
    strictly negative are classified Unstable at once, with the mixed-sign
    reason; the returned table is the initial row alone. *)
Theorem rh_mixed_sign_short_circuit (coeffs : list Q) :
  ~ Forall (fun c => 0 < c) coeffs ->
  ~ Forall (fun c => c < 0) coeffs ->
  routh_hurwitz coeffs = Ok ([first_row coeffs], InstavelSinais)
  /\ classification_of InstavelSinais = Unstable.
Proof.
  intros Hpos Hneg. split; [|reflexivity].
  unfold routh_hurwitz.
  destruct (same_sign coeffs) eqn:E; [|reflexivity].
  apply same_sign_iff in E. tauto.
Qed.

(** The theorem at [2, 0, -3]. *)
Lemma rh_mixed_sign_short_circuit_witness :
  ~ Forall (fun c => 0 < c) [2; 0; -3]
  /\ ~ Forall (fun c => c < 0) [2; 0; -3]
  /\ routh_hurwitz [2; 0; -3] = Ok ([[Label 0; Str 2; Str (-3)]], InstavelSinais).
Proof.
  assert (Hp : ~ Forall (fun c => 0 < c) [2; 0; -3]).
  { intros H. inversion H as [|? ? _ H']; subst.
    inversion H' as [|? ? H0 _]; subst. discriminate H0. }
  assert (Hn : ~ Forall (fun c => c < 0) [2; 0; -3]).
  { intros H. inversion H as [|? ? H0 _]; subst. discriminate H0. }
  split; [exact Hp|]. split; [exact Hn|].
  exact (proj1 (rh_mixed_sign_short_circuit [2; 0; -3] Hp Hn)).
Defined.

(** *** The singular pivot *)

(** C4: whenever the loop reaches an iteration [i] (the earlier iterations
    [done] fell through with table [t]), the pivot lookup
    [float(prev_row[1])] succeeds, and if the pivot is zero the analyzer
    returns the table built so far with the verdict
    "Instável (divisão por zero na tabela)".  No run of the analyzer
    raises. *)
Theorem rh_singular_pivot
    (coeffs : list Q) (done : list nat) (i : nat) (rest : list nat)
    (t : table) :
  same_sign coeffs = true ->
  seq 2 (length coeffs - 2) = done ++ i :: rest ->
  loop done (init_table coeffs) = Ok (Next t) ->
  (exists r, routh_hurwitz coeffs = Ok r)
  /\ exists prev_row p,
       item t (i - 1) = Ok prev_row
       /\ float_at prev_row 1 = Ok p
       /\ (p == 0 -> routh_hurwitz coeffs = Ok (t, InstavelDivisao)
                     /\ classification_of InstavelDivisao = Unstable).
Proof.
  intros Hsign Hseq Hdone.
  split.
  { destruct (routh_hurwitz_total coeffs) as (t0 & s0 & H). eauto. }
  destruct (seq_split _ _ _ _ _ Hseq) as [Edone Ei].
  assert (Hn : (3 <= length coeffs)%nat).
  { apply (f_equal (@length nat)) in Hseq.
    rewrite length_seq, length_app in Hseq. simpl in Hseq. lia. }
  destruct (loop_inv (length done) 2 _ (inv_init coeffs Hn))
    as (f & Hf & _ & Hinv).
  rewrite <- Edone, Hdone in Hf. inversion Hf; subst f.
  rewrite <- Ei in Hinv.
  destruct (inv_lookups i t Hinv) as (prev & pp & p & Hprev & Hpp & Hp).
  exists prev, p. split; [exact Hprev|]. split; [exact Hp|].
  intros Hzero. split; [|reflexivity].
  unfold routh_hurwitz. rewrite Hsign. cbn [negb].
  rewrite Hseq, loop_app, Hdone. cbn [bind loop].
  rewrite (body_eq i t prev pp p (inv_len _ _ Hinv) Hprev Hpp Hp).
  apply Qeq_eq_bool in Hzero. rewrite Hzero. reflexivity.
Qed.

(** The theorem at [1, 1, 1, 1]: iteration 2 falls through, iteration 3
    meets the pivot "0.0000". *)
Lemma rh_singular_pivot_witness :
  routh_hurwitz [1; 1; 1; 1]
  = Ok ([[Label 0; Str 1; Str 1]; [Label 1; Str 1; Str 1]; [Label 2; Fmt4 0]],
        InstavelDivisao).
Proof.
  destruct (rh_singular_pivot [1; 1; 1; 1] [2%nat] 3 []
              [[Label 0; Str 1; Str 1]; [Label 1; Str 1; Str 1];
               [Label 2; Fmt4 0]]
              eq_refl eq_refl eq_refl)
    as [_ (prev & p & Hprev & Hp & Hret)].
  apply Hret.
  vm_compute in Hprev. inversion Hprev; subst prev.
  vm_compute in Hp. inversion Hp; subst p.
  reflexivity.
Defined.

(** *** Reading the verdict off the first column *)

(** C2, as stated, fails: [1, 1, 1, 1] passes the same-sign test, the
    first column of its table is [1, 1, 0] (no sign change, one entry below
    1e-10), and the verdict is the singular-pivot one, not
    MarginallyStable. *)
Lemma rh_1_1_1_1_not_from_first_column :
  same_sign [1; 1; 1; 1] = true
  /\ ~ verdict_from_first_column [1; 1; 1; 1].
Proof.
  split; [reflexivity|].
  intros (t & s & fc & Hr & Hfc & _ & Hm & _).
  vm_compute in Hr. inversion Hr; subst t s.
  vm_compute in Hfc. inversion Hfc; subst fc.
  assert (H : InstavelDivisao = MarginalmenteEstavel).
  { apply Hm; [reflexivity|].
    right. right. left. reflexivity. }
  discriminate H.
Qed.

(** C2, amended: for coefficients that pass the same-sign test and whose
    table construction does not stop at a zero pivot, the verdict is read
    off the first column of the table as the rule says. *)
Theorem rh_verdict_from_first_column (coeffs : list Q) :
  same_sign coeffs = true ->
  (forall t, routh_hurwitz coeffs <> Ok (t, InstavelDivisao)) ->
  verdict_from_first_column coeffs.
Proof.
  intros Hsign Hpivot.
  destruct (routh_hurwitz_total coeffs) as (t & s & Hr).
  assert (H : exists fc, first_col t = Ok fc /\ s = classify fc).
  { pose proof Hr as Hr0. revert Hr.
    unfold routh_hurwitz. rewrite Hsign. cbn [negb].
    destruct (loop _ _) as [[t1|t1|t1 s1]|e] eqn:El; cbn [bind];
      try discriminate.
    - destruct (first_col t1) as [fc|] eqn:Efc; cbn [bind]; [|discriminate].
      intros H. inversion H; subst. eauto.
    - destruct (first_col t1) as [fc|] eqn:Efc; cbn [bind]; [|discriminate].
      intros H. inversion H; subst. eauto.
    - intros H. inversion H; subst.
      apply loop_return in El. subst s.
      exfalso. exact (Hpivot t Hr0). }
  destruct H as (fc & Hfc & Hs).
  exists t, s, fc. split; [exact Hr|]. split; [exact Hfc|].
  subst s. unfold classify.
  split; [|split].
  - intros H0 Hall. rewrite H0. simpl.
    destruct (any_tiny fc) eqn:E; [|reflexivity].
    apply any_tiny_Exists in E. exfalso.
    apply Exists_exists in E. destruct E as (x & Hx & Hlt).
    rewrite Forall_forall in Hall. exact (Hall x Hx Hlt).
  - intros H0 Hex. rewrite H0. simpl.
    apply any_tiny_Exists in Hex. now rewrite Hex.
  - intros Hpos. apply Nat.ltb_lt in Hpos. now rewrite Hpos.
Qed.

(** The theorem at [1, 2, 3]. *)
Lemma rh_verdict_from_first_column_witness :
  same_sign [1; 2; 3] = true
  /\ (forall t, routh_hurwitz [1; 2; 3] <> Ok (t, InstavelDivisao))
  /\ verdict_from_first_column [1; 2; 3].
Proof.
  assert (H : forall t, routh_hurwitz [1; 2; 3] <> Ok (t, InstavelDivisao)).
  { intros t Ht. vm_compute in Ht. discriminate Ht. }
  split; [reflexivity|]. split; [exact H|].
  exact (rh_verdict_from_first_column [1; 2; 3] eq_refl H).
Defined.

(** *** Trailing zeros *)

(** C5, at [1, 2, 3, 4]: row 3 is built as the label and the single entry
    "0.0000"; the trimming loop compares with the text "0", leaves the row
    as it is, the row does not collapse and its zero enters the first
    column.  No constructed row is ever shortened. *)
Theorem rh_trailing_zero_kept :
  routh_hurwitz [1; 2; 3; 4]
  = Ok ([[Label 0; Str 1; Str 3]; [Label 1; Str 2; Str 4];
         [Label 2; Fmt4 10000]; [Label 3; Fmt4 0]],
        MarginalmenteEstavel)
  /\ (exists z, float (Fmt4 0) = Ok z /\ z == 0)
  /\ fmt4_text 0 = "0.0000"%string
  /\ forall i prev_row prev_prev_row,
       drop_zeros (current_row i prev_row prev_prev_row)
       = current_row i prev_row prev_prev_row.
Proof.
  split; [reflexivity|].
  split; [exists (0 # 10000); split; reflexivity|].
  split; [reflexivity|].
  exact drop_zeros_current_row.
Qed.

(** The second half of C5 holds: a row left with its label alone ends the
    construction. *)
Lemma body_break_on_collapse (i : nat) (t t2 : table) (r : row) :
  body i t = Ok (Next t2) -> item t2 i = Ok r -> (2 <= length r)%nat.
Proof.
  unfold body.
  destruct (item t (i - 1)) as [prev|]; cbn [bind]; [|discriminate].
  destruct (item t (i - 2)) as [pp|]; cbn [bind]; [|discriminate].
  destruct (float_at prev 1) as [p|]; cbn [bind]; [|discriminate].
  destruct (Qeq_bool p 0); [discriminate|]. cbv zeta.
  destruct (modify_at i drop_zeros _) as [t3|]; cbn [bind]; [|discriminate].
  destruct (item t3 i) as [r3|] eqn:E; cbn [bind]; [|discriminate].
  destruct (Nat.leb (length r3) 1) eqn:El; [discriminate|].
  intros H. inversion H; subst t3. rewrite E. intros H'. inversion H'; subst.
  apply Nat.leb_gt in El. lia.
Qed.

End RouthFacts.

(** ** Coefficient parsing *)

Module ParseFacts.

Import Parse.

Lemma space_not_bracket (c : ascii) :
  is_space c = true -> is_bracket c = false.
Proof.
  destruct c as [[] [] [] [] [] [] [] []]; vm_compute; congruence.
Qed.

Lemma lstrip_all (p : ascii -> bool) (s r : str) :
  Forall (fun c => p c = true) s -> lstrip p (s ++ r) = lstrip p r.
Proof.
  induction 1 as [|c s Hc _ IH]; simpl; [reflexivity|].
  now rewrite Hc.
Qed.

Lemma lstrip_Forall (P : ascii -> Prop) (p : ascii -> bool) (s : str) :
  Forall P s -> Forall P (lstrip p s).
Proof.
  induction 1 as [|c s Hc Hs IH]; simpl; [constructor|].
  destruct (p c); auto.
Qed.

Lemma rstrip_all (p : ascii -> bool) (s r : str) :
  Forall (fun c => p c = true) r -> rstrip p (s ++ r) = rstrip p s.
Proof.
  intros H. unfold rstrip. rewrite rev_app_distr.
  rewrite lstrip_all; [reflexivity|].
  now apply Forall_rev.
Qed.

Lemma rstrip_Forall (P : ascii -> Prop) (p : ascii -> bool) (s : str) :
  Forall P s -> Forall P (rstrip p s).
Proof.
  intros H. unfold rstrip.
  apply Forall_rev, lstrip_Forall, Forall_rev, H.
Qed.

(** Brackets around blanks: what is left after [strip("[]")] is blank. *)
Lemma strip_brackets_blank (b1 w b2 : str) :
  Forall (fun c => is_bracket c = true) b1 ->
  Forall (fun c => is_space c = true) w ->
  Forall (fun c => is_bracket c = true) b2 ->
  Forall (fun c => is_space c = true) (strip is_bracket (b1 ++ w ++ b2)).
Proof.
  intros H1 Hw H2. unfold strip.
  rewrite lstrip_all by assumption.
  destruct w as [|c w].
  - simpl. rewrite <- (app_nil_r b2), lstrip_all by assumption.
    simpl. constructor.
  - simpl.
    assert (Hc : is_bracket c = false).
    { apply space_not_bracket. now inversion Hw. }
    rewrite Hc.
    change (c :: w ++ b2) with ((c :: w) ++ b2).
    rewrite rstrip_all by assumption.
    now apply rstrip_Forall.
Qed.

Lemma split_blank (s : str) :
  Forall (fun c => is_space c = true) s -> split s = [].
Proof.
  unfold split. induction 1 as [|c s Hc _ IH]; simpl; [reflexivity|].
  now rewrite Hc.
Qed.

(** A token of [split] is a non-empty run without blanks, so that
    [x.strip()] gives it back. *)
Lemma split_from_tokens (s cur tok : str) :
  Forall (fun c => is_space c = false) cur ->
  In tok (split_from cur s) ->
  tok <> [] /\ Forall (fun c => is_space c = false) tok.
Proof.
  revert cur. induction s as [|c s IH]; intros cur Hcur; simpl.
  - destruct cur as [|c0 cur]; simpl; [tauto|].
    intros [<-|[]]. split.
    + intros E. apply (f_equal (@length ascii)) in E.
      rewrite length_app in E. simpl in E. lia.
    + change (rev cur ++ [c0]) with (rev (c0 :: cur)).
      now apply Forall_rev.
  - destruct (is_space c) eqn:Ec.
    + destruct cur as [|c0 cur].
      * apply IH. constructor.
      * intros [<-|Hin].
        -- split.
           ++ intros E. apply (f_equal (@length ascii)) in E.
              simpl in E. rewrite length_app in E. simpl in E. lia.
           ++ now apply Forall_rev.
        -- apply (IH []); [constructor|exact Hin].
    + apply IH. now constructor.
Qed.

Lemma lstrip_head_kept (p : ascii -> bool) (s : str) :
  match s with
  | c :: _ => p c = false
  | [] => True
  end -> lstrip p s = s.
Proof. destruct s as [|c s]; simpl; [reflexivity|]. now intros ->. Qed.

Lemma strip_token (tok : str) :
  Forall (fun c => is_space c = false) tok -> strip is_space tok = tok.
Proof.
  intros H. unfold strip, rstrip.
  rewrite (lstrip_head_kept is_space tok).
  - rewrite lstrip_head_kept; [apply rev_involutive|].
    apply Forall_rev in H.
    destruct (rev tok); [exact I|]. now inversion H.
  - destruct tok; [exact I|]. now inversion H.
Qed.

Lemma split_token_strip (s tok : str) :
  In tok (split s) -> strip is_space tok = tok.
Proof.
  intros H. apply strip_token.
  eapply split_from_tokens; [|exact H]. constructor.
Qed.

Lemma floats_None (pyfloat : str -> option Q) (tokens : list str) :
  floats pyfloat tokens = None <->
  exists tok, In tok tokens /\ pyfloat (strip is_space tok) = None.
Proof.
  induction tokens as [|x rest IH]; simpl.
  - split; [discriminate|]. intros (tok & [] & _).
  - destruct (pyfloat (strip is_space x)) as [v|] eqn:Ex.
    + destruct (floats pyfloat rest) as [vs|].
      * split; [discriminate|].
        intros (tok & [<-|Hin] & Htok); [congruence|].
        assert (E : Some vs = None) by (apply IH; eauto).
        discriminate E.
      * split; [|reflexivity]. intros _.
        destruct (proj1 IH eq_refl) as (tok & Hin & Htok). eauto.
    + split; [|reflexivity]. intros _. exists x. auto.
Qed.

(** C10: a text made of blanks only, possibly between runs of '[' and ']',
    parses to the empty list; and the parser fails exactly when one of the
    blank-separated tokens of the bracket-stripped text is refused by
    [float]. *)
Theorem parse_coefficients_blank_and_failure (pyfloat : str -> option Q) :
  (forall b1 w b2 : str,
     Forall (fun c => is_bracket c = true) b1 ->
     Forall (fun c => is_space c = true) w ->
     Forall (fun c => is_bracket c = true) b2 ->
     parse_coefficients pyfloat (b1 ++ w ++ b2) = Some [])
  /\ (forall text : str,
        parse_coefficients pyfloat text = None <->
        exists tok, In tok (split (strip is_bracket text))
                    /\ pyfloat tok = None).
Proof.
  split.
  - intros b1 w b2 H1 Hw H2. unfold parse_coefficients.
    rewrite split_blank; [reflexivity|].
    now apply strip_brackets_blank.
  - intros text. unfold parse_coefficients. rewrite floats_None.
    split; intros (tok & Hin & Htok); exists tok; split; auto.
    + now rewrite (split_token_strip _ _ Hin) in Htok.
    + now rewrite (split_token_strip _ _ Hin).
Qed.

(** The theorem at the texts "[ ]", the empty text and "1 x 3", with the
    reader of decimal integers for [float]. *)
Lemma parse_coefficients_blank_and_failure_witness :
  parse_coefficients integer_float (list_ascii_of_string "[ ]"%string) = Some []
  /\ parse_coefficients integer_float [] = Some []
  /\ parse_coefficients integer_float (list_ascii_of_string "1 x 3"%string) = None
  /\ parse_coefficients integer_float (list_ascii_of_string "[1 -2 3]"%string)
     = Some [1; -2; 3].
Proof.
  split; [|split; [|split]].
  - apply (proj1 (parse_coefficients_blank_and_failure integer_float)
             (list_ascii_of_string "["%string) (list_ascii_of_string " "%string)
             (list_ascii_of_string "]"%string)); repeat constructor.
  - apply (proj1 (parse_coefficients_blank_and_failure integer_float)
             [] [] []); constructor.
  - apply (proj2 (parse_coefficients_blank_and_failure integer_float)
             (list_ascii_of_string "1 x 3"%string)).
    exists (list_ascii_of_string "x"%string). split; [|reflexivity].
    vm_compute. auto.
  - reflexivity.
Defined.

End ParseFacts.

(** ** Ramp and parabola responses *)

Module SimFacts.

Import Sim.

Lemma linspace_length (start stop : Q) (num : nat) :
  length (linspace start stop num) = num.
Proof. unfold linspace. now rewrite length_map, length_seq. Qed.

Lemma linspace_nth (start stop : Q) (num k : nat) :
  (k < num)%nat ->
  nth k (linspace start stop num) 0
  = start + inject_Z (Z.of_nat k)
            * ((stop - start) / inject_Z (Z.of_nat (num - 1))).
Proof.
  intros Hk. unfold linspace.
  set (f := fun k0 : nat => start + inject_Z (Z.of_nat k0) * _).
  rewrite (nth_indep _ 0 (f 0%nat)) by now rewrite length_map, length_seq.
  rewrite map_nth, seq_nth by assumption.
  reflexivity.
Qed.

(** The grid of the program: sample [k] is [k * 10 / 999]. *)
Lemma grid_nth (k : nat) :
  (k < 1000)%nat ->
  nth k (linspace 0 10 1000) 0 == inject_Z (Z.of_nat k) * (10 / 999).
Proof.
  intros Hk. rewrite linspace_nth by assumption.
  change (inject_Z (Z.of_nat (1000 - 1))) with 999.
  field.
Qed.

Lemma grid_increasing (k : nat) :
  (S k < 1000)%nat ->
  nth (S k) (linspace 0 10 1000) 0 - nth k (linspace 0 10 1000) 0
  == 10 / 999.
Proof.
  intros Hk. rewrite !grid_nth by lia.
  rewrite Nat2Z.inj_succ. unfold Z.succ. rewrite inject_Z_plus.
  change (inject_Z 1) with 1. field.
Qed.

Lemma reference_input_length (i : input_type) (t : list Q) :
  length (reference_input i t) = length t.
Proof. destruct i; simpl; [reflexivity|apply length_map]. Qed.

(** C9: what the ramp and the parabola branches do, on every closed-loop
    system and whatever [lsim] does.  The time grid has 1000 samples,
    evenly spaced from 0 to 10; the reference is [t] (ramp) or [t^2/2]
    (parabola) on that grid, one sample per grid point; both are handed to
    [lsim].  When [lsim] raises, the branch raises and no sample is
    returned; when it returns, the output is the one it returned, and the
    output and the reference are both drawn against the time samples it
    returned. *)
Theorem response_through_lsim
    (system : Type)
    (lsim : system -> list Q -> list Q -> res (list Q * list Q))
    (i : input_type) (sys : system) :
  let t := linspace 0 10 1000 in
  let u := reference_input i t in
  length t = 1000%nat
  /\ (forall k, (k < 1000)%nat ->
                nth k t 0 == inject_Z (Z.of_nat k) * (10 / 999))
  /\ nth 0 t 0 == 0
  /\ nth 999 t 0 == 10
  /\ (forall k, (S k < 1000)%nat -> nth (S k) t 0 - nth k t 0 == 10 / 999)
  /\ u = match i with
         | Rampa => t
         | Parabola => map (fun x => x ^ 2 / 2) t
         end
  /\ length u = length t
  /\ match lsim sys u t with
     | Ok (t', y) =>
         response lsim i sys
         = Ok {| time := t'; output := y; reference := u |}
     | Raise e => response lsim i sys = Raise e
     end.
Proof.
  intros t u.
  split; [apply linspace_length|].
  split; [exact grid_nth|].
  split; [unfold t; rewrite grid_nth by lia; reflexivity|].
  split; [unfold t; rewrite grid_nth by lia; reflexivity|].
  split; [exact grid_increasing|].
  split; [unfold u; now destruct i|].
  split; [apply reference_input_length|].
  unfold response. fold t. fold u.
  destruct (lsim sys u t) as [[t' y]|e]; reflexivity.
Qed.

(** The theorem on the closed loop [1/(s+2)] of the plant [1/(s+1)]: with
    an [lsim] that refuses the system, both branches raise; with one that
    returns, the drawn time and output are the returned ones. *)
Lemma response_through_lsim_witness :
  response refusing_lsim Rampa
    {| Control.num := [1]; Control.den := [1; 2] |}
  = Raise LibraryError
  /\ response refusing_lsim Parabola
       {| Control.num := [1]; Control.den := [1; 2] |}
     = Raise LibraryError
  /\ response still_lsim Rampa
       {| Control.num := [1]; Control.den := [1; 2] |}
     = Ok {| time := linspace 0 10 1000;
             output := map (fun _ => 0) (linspace 0 10 1000);
             reference := linspace 0 10 1000 |}.
Proof.
  split; [|split].
  - exact (proj2 (proj2 (proj2 (proj2 (proj2 (proj2 (proj2
             (response_through_lsim _ refusing_lsim Rampa
                {| Control.num := [1]; Control.den := [1; 2] |})))))))).
  - exact (proj2 (proj2 (proj2 (proj2 (proj2 (proj2 (proj2
             (response_through_lsim _ refusing_lsim Parabola
                {| Control.num := [1]; Control.den := [1; 2] |})))))))).
  - exact (proj2 (proj2 (proj2 (proj2 (proj2 (proj2 (proj2
             (response_through_lsim _ still_lsim Rampa
                {| Control.num := [1]; Control.den := [1; 2] |})))))))).
Defined.

End SimFacts.

(** ** Transfer functions and the controller *)

Module ControlFacts.

Import Control.

Lemma peq_rev (p q : list Q) : peq p q -> peq (rev p) (rev q).
Proof.
  induction 1; simpl; [constructor|].
  apply Forall2_app; [assumption|]. constructor; [assumption|constructor].
Qed.

Lemma peq_add_positions (p p' q q' : list Q) :
  peq p p' -> peq q q' -> peq (add_positions p q) (add_positions p' q').
Proof.
  intros Hp. revert q q'.
  induction Hp as [|a a' p p' Ha Hp IH]; intros q q' Hq; simpl.
  - exact Hq.
  - destruct Hq as [|b b' q q' Hb Hq].
    + constructor; assumption.
    + constructor; [now rewrite Ha, Hb|now apply IH].
Qed.

Lemma peq_polyadd (p p' q q' : list Q) :
  peq p p' -> peq q q' -> peq (polyadd p q) (polyadd p' q').
Proof.
  intros Hp Hq. unfold polyadd.
  apply peq_rev, peq_add_positions; now apply peq_rev.
Qed.

Lemma peq_strip_leading (p q : list Q) :
  peq p q -> peq (strip_leading p) (strip_leading q).
Proof.
  induction 1 as [|a b p q Hab Hpq IH]; simpl; [constructor|].
  destruct Hpq as [|a' b' p q Hab' Hpq].
  - constructor; [assumption|constructor].
  - rewrite (Qeqb_comp a b Hab 0 0 (Qeq_refl 0)).
    destruct (Qeq_bool b 0); [exact IH|].
    constructor; [assumption|]. constructor; assumption.
Qed.

Lemma strip_leading_idem (p : list Q) :
  strip_leading (strip_leading p) = strip_leading p.
Proof.
  induction p as [|a p IH]; simpl; [reflexivity|].
  destruct p as [|b p]; [reflexivity|].
  destruct (Qeq_bool a 0) eqn:E; [exact IH|].
  simpl. now rewrite E.
Qed.

(** Multiplying by the constant polynomial 1. *)
Lemma mul_low_one (p : list Q) : peq (mul_low p [1]) p.
Proof.
  induction p as [|a p IH]; simpl; [constructor|].
  constructor.
  - ring.
  - destruct (mul_low p [1]); exact IH.
Qed.

Lemma convolve_one (p : list Q) : peq (convolve p [1]) p.
Proof.
  unfold convolve. simpl.
  rewrite <- (rev_involutive p) at 2.
  apply peq_rev, mul_low_one.
Qed.

(** *** Values of polynomials *)

Lemma eval_low_add (p q : list Q) (x : Q) :
  eval_low (add_positions p q) x == eval_low p x + eval_low q x.
Proof.
  revert q. induction p as [|a p IH]; intros q; simpl; [ring|].
  destruct q as [|b q]; simpl; [ring|].
  rewrite IH. ring.
Qed.

Lemma eval_low_scale (a : Q) (q : list Q) (x : Q) :
  eval_low (map (Qmult a) q) x == a * eval_low q x.
Proof.
  induction q as [|b q IH]; simpl; [ring|].
  rewrite IH. ring.
Qed.

Lemma eval_low_mul (p q : list Q) (x : Q) :
  eval_low (mul_low p q) x == eval_low p x * eval_low q x.
Proof.
  induction p as [|a p IH]; simpl; [ring|].
  rewrite eval_low_add, eval_low_scale. simpl. rewrite IH. ring.
Qed.

Lemma eval_convolve (p q : list Q) (x : Q) :
  eval (convolve p q) x == eval p x * eval q x.
Proof.
  unfold eval, convolve. rewrite rev_involutive. apply eval_low_mul.
Qed.

Lemma eval_polyadd (p q : list Q) (x : Q) :
  eval (polyadd p q) x == eval p x + eval q x.
Proof.
  unfold eval, polyadd. rewrite rev_involutive. apply eval_low_add.
Qed.

Lemma eval_low_app_zero (l : list Q) (c x : Q) :
  c == 0 -> eval_low (l ++ [c]) x == eval_low l x.
Proof.
  intros Hc. induction l as [|a l IH]; simpl.
  - rewrite Hc. ring.
  - now rewrite IH.
Qed.

Lemma eval_strip_leading (p : list Q) (x : Q) :
  eval (strip_leading p) x == eval p x.
Proof.
  induction p as [|a p IH]; simpl; [reflexivity|].
  destruct p as [|b p]; [reflexivity|].
  destruct (Qeq_bool a 0) eqn:E; [|reflexivity].
  rewrite IH. unfold eval. cbn [rev].
  symmetry. apply eval_low_app_zero. now apply Qeq_bool_eq.
Qed.

Lemma eval_scale (k : Q) (p : list Q) (x : Q) :
  eval (map (Qmult k) p) x == k * eval p x.
Proof.
  unfold eval. rewrite <- map_rev. apply eval_low_scale.
Qed.

Lemma eval_constant (k x : Q) : eval [k] x == k.
Proof. unfold eval. simpl. ring. Qed.

Lemma tf_polynomials (n d : list Q) (G : TransferFunction) :
  tf n d = Some G ->
  num G = strip_leading n /\ den G = strip_leading d.
Proof.
  unfold tf, normalize.
  destruct (strip_leading d) as [|c d']; [discriminate|].
  destruct (Qeq_bool c 0); [discriminate|].
  intros H. inversion H. auto.
Qed.

(** *** Unity feedback *)

(** C7, as stated, fails: for [G = 1/(s+1)] the closed loop is
    [1 / (s + 2)], denominator [1, 2], while the sum of [G.den] and
    [G.num] after padding at the end (right) is [2, 1]. *)
Lemma unity_feedback_not_right_padded :
  feedback first_order_lag (gain 1) = Some {| num := [1]; den := [1; 2] |}
  /\ add_positions (den first_order_lag) (num first_order_lag) = [2; 1]
  /\ ~ (forall cl,
          feedback first_order_lag (gain 1) = Some cl ->
          peq (num cl) (num first_order_lag)
          /\ peq (den cl)
                 (add_positions (den first_order_lag) (num first_order_lag))).
Proof.
  split; [reflexivity|]. split; [reflexivity|].
  intros H.
  destruct (H {| num := [1]; den := [1; 2] |} eq_refl) as [_ Hden].
  simpl in Hden. inversion Hden as [|a b p q Hab _]; subst.
  discriminate Hab.
Qed.

(** C7, amended: under unity negative feedback the closed-loop numerator
    is [G.num] and the closed-loop denominator is [G.den + G.num] with the
    two lists aligned at the constant term (the shorter one padded with
    zeros in front), leading zeros of the sum removed; for [G = 1/(s+1)]
    the closed loop has numerator [1] and denominator [1, 2]. *)
Theorem unity_feedback_closed_loop
    (n d : list Q) (G cl : TransferFunction) :
  tf n d = Some G ->
  feedback G (gain 1) = Some cl ->
  peq (num cl) (num G)
  /\ peq (den cl) (strip_leading (polyadd (den G) (num G)))
  /\ (forall x, eval (den cl) x == eval (den G) x + eval (num G) x)
  /\ (tf [1] [1; 1] = Some first_order_lag
      /\ feedback first_order_lag (gain 1)
         = Some {| num := [1]; den := [1; 2] |}).
Proof.
  intros HG Hcl.
  destruct (tf_polynomials n d G HG) as [Hn _].
  assert (H : num cl = strip_leading (convolve (num G) [1])
              /\ den cl = strip_leading
                            (polyadd (convolve (den G) [1])
                                     (convolve (num G) [1]))).
  { revert Hcl. unfold feedback, normalize. simpl.
    destruct (strip_leading (polyadd _ _)) as [|c d']; [discriminate|].
    destruct (Qeq_bool c 0); [discriminate|].
    intros H. inversion H. auto. }
  destruct H as [Hnum Hden].
  assert (Hdenq : peq (den cl) (strip_leading (polyadd (den G) (num G)))).
  { rewrite Hden. apply peq_strip_leading, peq_polyadd; apply convolve_one. }
  split; [|split; [exact Hdenq|split]].
  - rewrite Hnum.
    replace (num G) with (strip_leading (num G)) at 2
      by (rewrite Hn; apply strip_leading_idem).
    apply peq_strip_leading, convolve_one.
  - intros x. rewrite Hden, eval_strip_leading, eval_polyadd.
    rewrite !eval_convolve, eval_constant. ring.
  - split; reflexivity.
Qed.

(** The theorem at [G = 2 / (s^2 + 3 s)], entered with a leading zero. *)
Lemma unity_feedback_closed_loop_witness :
  tf [0; 2] [1; 3; 0] = Some {| num := [2]; den := [1; 3; 0] |}
  /\ feedback {| num := [2]; den := [1; 3; 0] |} (gain 1)
     = Some {| num := [2]; den := [1; 3; 2] |}
  /\ peq [1; 3; 2] (strip_leading (polyadd [1; 3; 0] [2])).
Proof.
  split; [reflexivity|]. split; [reflexivity|].
  exact (proj1 (proj2
    (unity_feedback_closed_loop [0; 2] [1; 3; 0]
       {| num := [2]; den := [1; 3; 0] |}
       {| num := [2]; den := [1; 3; 2] |} eq_refl eq_refl))).
Defined.

(** *** The lead-lag controller *)

(** C8: the lead-lag controller is [Kp] times the series product of the
    lead term [N1/D1] and the lag term [N2/D2]: its numerator is the
    polynomial [Kp * N1 * N2], with [Kp] to the first power, and its
    denominator is [D1 * D2]. *)
Theorem lead_lag_gain_once
    (pyfloat : Parse.str -> option Q) (f : controller_form)
    (kp : Q) (N1 D1 N2 D2 : list Q) (G_avanco G_atraso : TransferFunction) :
  ctrl_type f = AvancoAtraso ->
  pyfloat (kp_entry f) = Some kp ->
  Parse.parse_coefficients pyfloat (num_c_entry f) = Some N1 ->
  Parse.parse_coefficients pyfloat (den_c_entry f) = Some D1 ->
  Parse.parse_coefficients pyfloat (num_at_entry f) = Some N2 ->
  Parse.parse_coefficients pyfloat (den_at_entry f) = Some D2 ->
  tf N1 D1 = Some G_avanco ->
  tf N2 D2 = Some G_atraso ->
  exists C,
    get_controller_tf pyfloat f = Some C
    /\ same_tf C (scale kp (series G_avanco G_atraso))
    /\ (forall x, eval (num C) x == kp * (eval N1 x * eval N2 x))
    /\ (forall x, eval (den C) x == eval D1 x * eval D2 x).
Proof.
  intros Ht Hkp HN1 HD1 HN2 HD2 H1 H2.
  exists (series (series (gain kp) G_avanco) G_atraso).
  split.
  { unfold get_controller_tf. rewrite Hkp, Ht, HN1, HD1, HN2, HD2, H1, H2.
    reflexivity. }
  destruct (tf_polynomials _ _ _ H1) as [En1 Ed1].
  destruct (tf_polynomials _ _ _ H2) as [En2 Ed2].
  assert (Hnum : forall x,
             eval (num (series (series (gain kp) G_avanco) G_atraso)) x
             == kp * (eval (num G_avanco) x * eval (num G_atraso) x)).
  { intros x. simpl. rewrite !eval_convolve, eval_constant. ring. }
  assert (Hden : forall x,
             eval (den (series (series (gain kp) G_avanco) G_atraso)) x
             == eval (den G_avanco) x * eval (den G_atraso) x).
  { intros x. simpl. rewrite !eval_convolve, eval_constant. ring. }
  split; [|split].
  - split; intros x.
    + rewrite Hnum. simpl. now rewrite eval_scale, eval_convolve.
    + rewrite Hden. simpl. now rewrite eval_convolve.
  - intros x. rewrite Hnum, En1, En2, !eval_strip_leading. reflexivity.
  - intros x. rewrite Hden, Ed1, Ed2, !eval_strip_leading. reflexivity.
Qed.

(** Had the gain been applied to each factor, the numerator would carry
    [Kp * Kp]. *)
Remark gain_per_factor_squares (kp : Q) (A B : TransferFunction) (x : Q) :
  eval (num (series (scale kp A) (scale kp B))) x
  == kp * kp * eval (num (series A B)) x.
Proof.
  simpl. rewrite !eval_convolve, !eval_scale. ring.
Qed.

(** The theorem at [sample_form]: the numerator is [2 (s+1)(s+3)]. *)
Lemma lead_lag_gain_once_witness :
  get_controller_tf Parse.integer_float sample_form
  = Some {| num := [2; 8; 6]; den := [1; 6; 8] |}
  /\ exists C,
       get_controller_tf Parse.integer_float sample_form = Some C
       /\ forall x, eval (num C) x == 2 * (eval [1; 1] x * eval [1; 3] x).
Proof.
  split; [reflexivity|].
  destruct (lead_lag_gain_once Parse.integer_float sample_form
              2 [1; 1] [1; 2] [1; 3] [1; 4]
              {| num := [1; 1]; den := [1; 2] |}
              {| num := [1; 3]; den := [1; 4] |}
              eq_refl eq_refl eq_refl eq_refl eq_refl eq_refl
              eq_refl eq_refl)
    as (C & HC & _ & Hnum & _).
  exists C. split; assumption.
Defined.

End ControlFacts.

(** * Further properties *)

(** ** The shape of the Routh-Hurwitz table *)

Module RouthShape.

Import Routh RouthFacts RouthTable.
Local Open Scope res_scope.

(** [lia] is to know the quotients by 2 of the row lengths. *)
Ltac Zify.zify_post_hook ::= Z.to_euclidean_division_equations.

Lemma evens_odds_length {A : Type} (l : list A) :
  length (evens l) = ((length l + 1) / 2)%nat
  /\ forall x, length (evens (x :: l)) = ((length (x :: l) + 1) / 2)%nat.
Proof.
  induction l as [|a l [IH1 IH2]].
  - split; [reflexivity|]. intros x. reflexivity.
  - split; [apply IH2|].
    intros x. cbn [evens length]. rewrite IH1. cbn [length]. lia.
Qed.

Lemma evens_length {A : Type} (l : list A) :
  length (evens l) = ((length l + 1) / 2)%nat.
Proof. apply evens_odds_length. Qed.

Lemma odds_length {A : Type} (l : list A) :
  length (odds l) = (length l / 2)%nat.
Proof.
  destruct l as [|a l]; [reflexivity|].
  cbn [odds length]. rewrite evens_length. lia.
Qed.

Lemma first_row_length (coeffs : list Q) :
  length (first_row coeffs) = (1 + (length coeffs + 1) / 2)%nat.
Proof.
  unfold first_row. cbn [length]. now rewrite length_map, evens_length.
Qed.

Lemma second_row_length (coeffs : list Q) :
  length (second_row coeffs) = length (first_row coeffs).
Proof.
  rewrite first_row_length. unfold second_row.
  rewrite length_app. cbn [length]. rewrite length_map, odds_length.
  destruct (Nat.eqb_spec (length coeffs mod 2) 1) as [E|E]; cbn [length];
    lia.
Qed.

Lemma row_width_ge (coeffs : list Q) (k : nat) :
  (k < length coeffs)%nat -> (2 <= row_width coeffs k)%nat.
Proof.
  intros H. unfold row_width. rewrite first_row_length. lia.
Qed.

Lemma shaped_init (coeffs : list Q) : shaped coeffs (init_table coeffs).
Proof.
  intros k r. unfold init_table, row_width.
  destruct (Nat.ltb 1 (length coeffs)); cbn [app].
  - destruct k as [|[|k]]; cbn [nth_error]; intros H; inversion H; subst.
    + lia.
    + rewrite second_row_length. lia.
    + destruct k; discriminate.
  - destruct k as [|k]; cbn [nth_error]; intros H; inversion H; subst.
    + lia.
    + destruct k; discriminate.
Qed.

Lemma shaped_app (coeffs : list Q) (t : table) (r : row) :
  shaped coeffs t ->
  length r = row_width coeffs (length t) ->
  shaped coeffs (t ++ [r]).
Proof.
  intros Ht Hr k r'. destruct (lt_dec k (length t)) as [Hk|Hk].
  - rewrite nth_error_app1 by assumption. apply Ht.
  - rewrite nth_error_app2 by lia.
    destruct (k - length t)%nat as [|m] eqn:E; cbn [nth_error].
    + intros H. inversion H; subst.
      replace k with (length t) by lia. exact Hr.
    + destruct m; discriminate.
Qed.

Lemma current_row_length (i : nat) (prev_row prev_prev_row : row) :
  length (current_row i prev_row prev_prev_row)
  = (1 + (length prev_prev_row - 2))%nat.
Proof.
  unfold current_row. cbn [length]. now rewrite length_map, length_seq.
Qed.

Lemma item_nth_error {A : Type} (l : list A) (k : nat) (x : A) :
  item l k = Ok x -> nth_error l k = Some x.
Proof.
  unfold item. destruct (nth_error l k); intros H; inversion H; auto.
Qed.

(** One pass of the body on a shaped table: it either returns at a zero
    pivot or appends a row of the expected length; it never breaks. *)
Lemma body_shaped (coeffs : list Q) (i : nat) (t : table) :
  inv i t -> shaped coeffs t -> (i < length coeffs)%nat ->
  exists prev_row prev_prev_row p,
    item t (i - 1) = Ok prev_row
    /\ item t (i - 2) = Ok prev_prev_row
    /\ float_at prev_row 1 = Ok p
    /\ length prev_row = row_width coeffs (i - 1)
    /\ length prev_prev_row = row_width coeffs (i - 2)
    /\ length (current_row i prev_row prev_prev_row) = row_width coeffs i
    /\ body i t
       = Ok (if Qeq_bool p 0 then Return t InstavelDivisao
             else Next (t ++ [current_row i prev_row prev_prev_row])).
Proof.
  intros Hinv Hsh Hi.
  destruct (inv_lookups i t Hinv) as (prev & pp & p & Hprev & Hpp & Hp).
  pose proof (Hsh _ _ (item_nth_error _ _ _ Hprev)) as Lprev.
  pose proof (Hsh _ _ (item_nth_error _ _ _ Hpp)) as Lpp.
  pose proof (inv_ge _ _ Hinv) as Hge.
  assert (Lcur : length (current_row i prev pp) = row_width coeffs i).
  { rewrite current_row_length, Lpp.
    unfold row_width. rewrite first_row_length. lia. }
  exists prev, pp, p. repeat (split; [assumption|]).
  rewrite (body_eq i t prev pp p (inv_len _ _ Hinv) Hprev Hpp Hp).
  cbv zeta.
  pose proof (row_width_ge coeffs i Hi) as Hw.
  destruct (Nat.leb_spec (length (current_row i prev pp)) 1) as [Hl|Hl];
    [lia|reflexivity].
Qed.

Lemma inv_app (i : nat) (t : table) (r : row) :
  inv i t -> wf_row r = true -> (2 <= length r)%nat -> inv (S i) (t ++ [r]).
Proof.
  intros [Hlen Hge Hwf _] Hr Hr2. constructor.
  - rewrite length_app. cbn [length]. lia.
  - lia.
  - rewrite forallb_app, Hwf. cbn [forallb andb]. now rewrite Hr.
  - exists r. split; [|assumption].
    replace (S i - 1)%nat with (length t) by lia. apply item_app_last.
Qed.

(** The loop on a shaped table: it falls through with one more row per
    index, or returns at a zero pivot with the rows built so far. *)
Lemma loop_shaped (coeffs : list Q) (k i : nat) (t : table) :
  inv i t -> shaped coeffs t -> (i + k <= length coeffs)%nat ->
  exists f, loop (seq i k) t = Ok f
    /\ match f with
       | Next t' => inv (i + k) t' /\ shaped coeffs t'
       | Break _ => False
       | Return t' s =>
           s = InstavelDivisao /\ shaped coeffs t'
           /\ (length t' < i + k)%nat /\ forallb wf_row t' = true
       end.
Proof.
  revert i t. induction k as [|k IH]; intros i t Hinv Hsh Hik; cbn [seq loop].
  - exists (Next t). rewrite Nat.add_0_r. auto.
  - destruct (body_shaped coeffs i t Hinv Hsh)
      as (prev & pp & p & _ & _ & _ & _ & _ & Lcur & Hbody); [lia|].
    rewrite Hbody. cbn [bind].
    destruct (Qeq_bool p 0).
    + exists (Return t InstavelDivisao). split; [reflexivity|].
      repeat split; auto.
      * rewrite (inv_len _ _ Hinv). lia.
      * apply Hinv.
    + assert (Hinv' : inv (S i) (t ++ [current_row i prev pp])).
      { apply inv_app; [assumption|apply wf_current_row|].
        rewrite Lcur. apply row_width_ge. lia. }
      assert (Hsh' : shaped coeffs (t ++ [current_row i prev pp])).
      { apply shaped_app; [assumption|].
        now rewrite (inv_len _ _ Hinv). }
      destruct (IH (S i) _ Hinv' Hsh') as (f & Hf & Hm); [lia|].
      exists f. split; [exact Hf|].
      destruct f as [t'|t'|t' s]; [| |].
      * now rewrite <- Nat.add_succ_comm.
      * exact Hm.
      * rewrite <- Nat.add_succ_comm. exact Hm.
Qed.

(** Every run that passes the sign test: the table is shaped, and either
    it has one row per coefficient and the verdict is read off its first
    column, or the run stopped at a zero pivot with fewer rows. *)
Lemma routh_run (coeffs : list Q) :
  same_sign coeffs = true -> (1 <= length coeffs)%nat ->
  exists t,
    shaped coeffs t /\ forallb wf_row t = true
    /\ ((length t = length coeffs
         /\ exists fc, first_col t = Ok fc
                       /\ routh_hurwitz coeffs = Ok (t, classify fc))
        \/ ((length t < length coeffs)%nat
            /\ routh_hurwitz coeffs = Ok (t, InstavelDivisao))).
Proof.
  intros Hsign Hn. unfold routh_hurwitz. rewrite Hsign. cbn [negb].
  destruct (le_lt_dec 3 (length coeffs)) as [H3|H3].
  - destruct (loop_shaped coeffs (length coeffs - 2) 2 (init_table coeffs))
      as (f & Hf & Hm);
      [now apply inv_init|apply shaped_init|lia|].
    rewrite Hf. cbn [bind].
    destruct f as [t|t|t s]; [|contradiction|].
    + destruct Hm as [Hinv Hsh].
      destruct (first_col_total t (inv_wf _ _ Hinv)) as [fc Hfc].
      exists t. split; [assumption|]. split; [apply Hinv|].
      left. split; [rewrite (inv_len _ _ Hinv); lia|].
      exists fc. rewrite Hfc. auto.
    + destruct Hm as (-> & Hsh & Hlen & Hwf).
      exists t. split; [assumption|]. split; [assumption|].
      right. split; [lia|reflexivity].
  - replace (length coeffs - 2)%nat with 0%nat by lia. cbn [seq loop bind].
    destruct (first_col_total _ (wf_init_table coeffs)) as [fc Hfc].
    exists (init_table coeffs).
    split; [apply shaped_init|]. split; [apply wf_init_table|].
    left. split.
    + unfold init_table.
      destruct (Nat.ltb_spec 1 (length coeffs)); cbn [app length]; lia.
    + exists fc. rewrite Hfc. auto.
Qed.

(** *** Rows of the returned table *)

Lemma classify_not_division (fc : list Q) : classify fc <> InstavelDivisao.
Proof.
  unfold classify.
  destruct (Nat.ltb 0 (sign_changes fc)); [discriminate|].
  destruct (any_tiny fc); discriminate.
Qed.

(** A run that passes the sign test either fills one row per coefficient
    or stops early at a zero pivot. *)
Lemma routh_result (coeffs : list Q) (t : table) (s : stability) :
  same_sign coeffs = true ->
  (1 <= length coeffs)%nat ->
  routh_hurwitz coeffs = Ok (t, s) ->
  shaped coeffs t
  /\ ((length t = length coeffs /\ s <> InstavelDivisao)
      \/ ((length t < length coeffs)%nat /\ s = InstavelDivisao)).
Proof.
  intros Hsign Hn Hr.
  destruct (routh_run coeffs Hsign Hn) as (t0 & Hsh & _ & Hcase).
  destruct Hcase as [(Hlen & fc & _ & Hr0)|(Hlen & Hr0)];
    rewrite Hr0 in Hr; inversion Hr; subst t0.
  - split; [assumption|]. left. split; [assumption|].
    apply classify_not_division.
  - split; [assumption|]. right. split; [assumption|reflexivity].
Qed.

(** X1: when the sign test passes, the returned table has at most one row
    per coefficient, exactly one per coefficient unless the run stopped at
    a zero pivot (the [break] of the loop is never taken), and every row
    holds its label and at least one entry; row [k] has
    [1 + (n + 1) / 2 - k / 2] cells. *)
Theorem rh_table_rows (coeffs : list Q) (t : table) (s : stability) :
  same_sign coeffs = true ->
  (1 <= length coeffs)%nat ->
  routh_hurwitz coeffs = Ok (t, s) ->
  (length t <= length coeffs)%nat
  /\ (s <> InstavelDivisao -> length t = length coeffs)
  /\ (forall k r, nth_error t k = Some r ->
                  length r = (1 + (length coeffs + 1) / 2 - k / 2)%nat
                  /\ (2 <= length r)%nat).
Proof.
  intros Hsign Hn Hr.
  destruct (routh_result coeffs t s Hsign Hn Hr) as (Hsh & Hcase).
  assert (Hlen : (length t <= length coeffs)%nat).
  { destruct Hcase as [[H _]|[H _]]; lia. }
  split; [exact Hlen|]. split.
  - destruct Hcase as [[H _]|[_ H]]; [auto|contradiction].
  - intros k r Hk.
    assert (Hkn : (k < length coeffs)%nat).
    { apply Nat.lt_le_trans with (length t); [|assumption].
      apply nth_error_Some. congruence. }
    pose proof (row_width_ge coeffs k Hkn) as Hw.
    rewrite (Hsh k r Hk). split; [|assumption].
    unfold row_width. now rewrite first_row_length.
Qed.

(** The theorem at [1, 3, 3, 1, 2]. *)
Lemma rh_table_rows_witness :
  exists t s,
    routh_hurwitz [1; 3; 3; 1; 2] = Ok (t, s) /\ length t = 5%nat.
Proof.
  destruct (routh_hurwitz [1; 3; 3; 1; 2]) as [[t s]|e] eqn:E;
    [|vm_compute in E; discriminate E].
  exists t, s. split; [reflexivity|].
  apply (rh_table_rows [1; 3; 3; 1; 2] t s eq_refl); [cbn; lia|exact E|].
  vm_compute in E. inversion E. discriminate.
Defined.

(** *** Polynomials of odd degree *)

Lemma entry_short (prev_row prev_prev_row : row) (j : nat) :
  (length prev_row <= j + 1)%nat -> entry prev_row prev_prev_row j = 0.
Proof.
  intros H. unfold entry.
  assert (E : float_at prev_row (j + 1) = Raise IndexError).
  { unfold float_at, item.
    now rewrite (proj2 (nth_error_None prev_row (j + 1)) H). }
  destruct (float_at prev_row 1); cbn [bind try_except]; [|reflexivity].
  destruct (float_at prev_prev_row (j + 1)); cbn [bind try_except];
    [|reflexivity].
  destruct (float_at prev_prev_row 1); cbn [bind try_except]; [|reflexivity].
  rewrite E. reflexivity.
Qed.

Lemma first_col_app (t : table) (r : row) :
  first_col (t ++ [r])
  = (fc <- first_col t ;;
     if Nat.ltb 1 (length r)
     then x <- float_at r 1 ;; Ok (fc ++ [x])
     else Ok fc).
Proof.
  induction t as [|r0 t IH]; cbn [app first_col].
  - destruct (Nat.ltb 1 (length r)); cbn [bind]; [|reflexivity].
    now destruct (float_at r 1).
  - rewrite IH.
    destruct (Nat.ltb 1 (length r0)).
    + destruct (float_at r0 1); cbn [bind]; [|reflexivity].
      destruct (first_col t) as [fc|]; cbn [bind]; [|reflexivity].
      destruct (Nat.ltb 1 (length r)); cbn [bind]; [|reflexivity].
      now destruct (float_at r 1).
    + reflexivity.
Qed.

Lemma classify_Estavel (fc : list Q) :
  classify fc = Estavel -> sign_changes fc = 0%nat /\ any_tiny fc = false.
Proof.
  unfold classify.
  destruct (Nat.ltb_spec 0 (sign_changes fc)); [discriminate|].
  destruct (any_tiny fc); [discriminate|]. intros _. split; [lia|reflexivity].
Qed.

(** X2: a polynomial of odd degree three or more (an even number, at least
    four, of coefficients) is never answered "Estável": the last entry of
    the last row is read past the end of the previous row, the [except]
    branch makes it 0, and that 0 sits in the first column. *)
Theorem rh_odd_degree_never_stable (coeffs : list Q) (t : table) :
  Nat.even (length coeffs) = true ->
  (4 <= length coeffs)%nat ->
  routh_hurwitz coeffs <> Ok (t, Estavel).
Proof.
  intros Hev Hn Hr.
  apply Nat.even_spec in Hev. destruct Hev as [m Hm].
  unfold routh_hurwitz in Hr.
  destruct (same_sign coeffs) eqn:Hs; cbn [negb] in Hr; [|discriminate Hr].
  replace (length coeffs - 2)%nat with ((length coeffs - 3) + 1)%nat in Hr
    by lia.
  rewrite seq_app, loop_app in Hr.
  destruct (loop_shaped coeffs (length coeffs - 3) 2 (init_table coeffs))
    as (f & Hf & Hshape);
    [apply inv_init; lia|apply shaped_init|lia|].
  rewrite Hf in Hr. cbn [bind] in Hr.
  destruct f as [t1|t1|t1 s1]; [|contradiction|].
  2:{ destruct Hshape as (-> & _). discriminate Hr. }
  destruct Hshape as [Hinv Hsh].
  cbn [seq loop] in Hr.
  destruct (body_shaped coeffs _ t1 Hinv Hsh)
    as (prev & pp & p & _ & _ & _ & Lprev & Lpp & _ & Hbody); [lia|].
  rewrite Hbody in Hr. cbn [bind] in Hr.
  destruct (Qeq_bool p 0); [discriminate Hr|].
  cbn [bind loop] in Hr.
  assert (Ecur : current_row (2 + (length coeffs - 3)) prev pp
                 = [Label (2 + (length coeffs - 3)); Fmt4 0]).
  { unfold current_row.
    replace (length pp - 2)%nat with 1%nat
      by (rewrite Lpp; unfold row_width; rewrite first_row_length; lia).
    cbn [seq map]. rewrite entry_short; [reflexivity|].
    rewrite Lprev. unfold row_width. rewrite first_row_length. lia. }
  rewrite Ecur, first_col_app in Hr.
  destruct (first_col t1) as [fc1|]; cbn [bind] in Hr; [|discriminate Hr].
  change (Nat.ltb 1 (length [Label (2 + (length coeffs - 3)); Fmt4 0]))
    with true in Hr.
  cbn [float_at item nth_error bind float] in Hr.
  inversion Hr as [[Ht Hc]].
  apply classify_Estavel in Hc. destruct Hc as [_ Hc].
  unfold any_tiny in Hc. rewrite existsb_app in Hc.
  apply orb_false_elim in Hc. destruct Hc as [_ Hc].
  discriminate Hc.
Qed.

(** The theorem at [1, 2, 3, 4], whose roots all lie in the left half
    plane. *)
Lemma rh_odd_degree_never_stable_witness :
  exists t s, routh_hurwitz [1; 2; 3; 4] = Ok (t, s) /\ s <> Estavel.
Proof.
  destruct (routh_hurwitz [1; 2; 3; 4]) as [[t s]|e] eqn:E;
    [|vm_compute in E; discriminate E].
  exists t, s. split; [reflexivity|].
  intros ->. revert E.
  apply rh_odd_degree_never_stable; [reflexivity|cbn; lia].
Defined.

End RouthShape.

(** ** Where a zero pivot comes from *)

Module RouthPivot.

Import Routh RouthFacts RouthTable RouthShape.
Local Open Scope res_scope.

Lemma built_init (coeffs : list Q) :
  (2 <= length coeffs)%nat -> built coeffs (init_table coeffs).
Proof.
  intros Hn. unfold built, init_table.
  replace (Nat.ltb 1 (length coeffs)) with true
    by (symmetry; apply Nat.ltb_lt; lia).
  split; [reflexivity|].
  intros k r Hk. destruct k as [|[|[|k]]]; try lia; discriminate.
Qed.

Lemma built_app (coeffs : list Q) (t : table) (i : nat)
    (prev_row prev_prev_row : row) :
  (2 <= length t)%nat -> built coeffs t ->
  built coeffs (t ++ [current_row i prev_row prev_prev_row]).
Proof.
  intros Hlen [H1 H2]. split.
  - rewrite nth_error_app1 by lia. exact H1.
  - intros k r Hk. destruct (lt_dec k (length t)) as [Hlt|Hge].
    + rewrite nth_error_app1 by assumption. now apply H2.
    + rewrite nth_error_app2 by lia.
      destruct (k - length t)%nat as [|m]; cbn [nth_error].
      * intros H. inversion H. unfold current_row.
        exists i. rewrite <- map_map with (g := Fmt4). eauto.
      * destruct m; discriminate.
Qed.

(** An early return hands back a table whose last row starts with a zero
    pivot. *)
Lemma loop_return_pivot (coeffs : list Q) (k i : nat) (t t' : table)
    (s : stability) :
  inv i t -> shaped coeffs t -> built coeffs t ->
  (i + k <= length coeffs)%nat ->
  loop (seq i k) t = Ok (Return t' s) ->
  built coeffs t'
  /\ (2 <= length t')%nat
  /\ exists prev_row p,
       nth_error t' (length t' - 1) = Some prev_row
       /\ float_at prev_row 1 = Ok p /\ p == 0.
Proof.
  revert i t. induction k as [|k IH]; intros i t Hinv Hsh Hb Hik;
    cbn [seq loop]; [discriminate|].
  destruct (body_shaped coeffs i t Hinv Hsh)
    as (prev & pp & p & Hprev & _ & Hp & _ & _ & Lcur & Hbody); [lia|].
  rewrite Hbody. cbn [bind].
  pose proof (inv_len _ _ Hinv) as Hlen.
  pose proof (inv_ge _ _ Hinv) as Hge.
  destruct (Qeq_bool p 0) eqn:E.
  - intros H. inversion H; subst t' s.
    split; [exact Hb|]. split; [lia|].
    exists prev, p. rewrite Hlen.
    split; [now apply item_nth_error|].
    split; [exact Hp|now apply Qeq_bool_eq].
  - apply (IH (S i)); [| | |lia].
    + apply inv_app; [assumption|apply wf_current_row|].
      rewrite Lcur. apply row_width_ge. lia.
    + apply shaped_app; [assumption|]. now rewrite Hlen.
    + apply built_app; [lia|assumption].
Qed.

(** X14: when the coefficients pass the sign test, the verdict
    "Instável (divisão por zero na tabela)" is never given at a
    coefficient: the returned table has at least three rows and fewer rows
    than coefficients, and its last row is a row computed by the loop (a
    label followed by [.4f] texts) whose first entry reads back as zero. *)
Theorem rh_zero_pivot_is_computed_entry (coeffs : list Q) (t : table) :
  same_sign coeffs = true ->
  routh_hurwitz coeffs = Ok (t, InstavelDivisao) ->
  (3 <= length t < length coeffs)%nat
  /\ exists r p,
       nth_error t (length t - 1) = Some r
       /\ (exists i ms, r = Label i :: map Fmt4 ms)
       /\ float_at r 1 = Ok p
       /\ p == 0.
Proof.
  intros Hsign Hr.
  assert (Hn : (3 <= length coeffs)%nat).
  { destruct (le_lt_dec 3 (length coeffs)) as [H|H]; [exact H|].
    exfalso. revert Hr. unfold routh_hurwitz. rewrite Hsign. cbn [negb].
    replace (length coeffs - 2)%nat with 0%nat by lia. cbn [seq loop bind].
    destruct (first_col (init_table coeffs)) as [fc|]; cbn [bind];
      [|discriminate].
    intros H0. inversion H0 as [[H1 H2]].
    exact (classify_not_division fc H2). }
  destruct (routh_result coeffs t InstavelDivisao Hsign) as (Hsh & Hcase);
    [lia|exact Hr|].
  assert (Hrows : (length t < length coeffs)%nat).
  { destruct Hcase as [[_ H]|[H _]]; [contradiction|exact H]. }
  assert (Hloop : exists s',
             loop (seq 2 (length coeffs - 2)) (init_table coeffs)
             = Ok (Return t s')).
  { revert Hr. unfold routh_hurwitz. rewrite Hsign. cbn [negb].
    destruct (loop _ _) as [[t1|t1|t1 s1]|e]; cbn [bind]; try discriminate.
    - destruct (first_col t1) as [fc|]; cbn [bind]; [|discriminate].
      intros H0. inversion H0 as [[H1 H2]].
      destruct (classify_not_division fc H2).
    - destruct (first_col t1) as [fc|]; cbn [bind]; [|discriminate].
      intros H0. inversion H0 as [[H1 H2]].
      destruct (classify_not_division fc H2).
    - intros H0. inversion H0. eauto. }
  destruct Hloop as (s' & Hloop).
  destruct (loop_return_pivot coeffs (length coeffs - 2) 2
              (init_table coeffs) t s')
    as ([Hrow1 Hlater] & Hlen2 & prev & p & Hprev & Hp & Hzero);
    [apply inv_init; lia|apply shaped_init|apply built_init; lia|lia
    |exact Hloop|].
  destruct (Nat.eq_dec (length t) 2) as [E2|E2].
  - (* the pivot would be the second coefficient *)
    exfalso. rewrite E2 in Hprev. cbn [Nat.sub] in Hprev.
    rewrite Hrow1 in Hprev. inversion Hprev; subst prev.
    apply same_sign_iff in Hsign.
    destruct coeffs as [|a [|b coeffs]]; [cbn in Hn; lia|cbn in Hn; lia|].
    unfold second_row, float_at, item in Hp. cbn in Hp.
    inversion Hp; subst p.
    destruct Hsign as [H|H]; inversion H as [|? ? _ H']; subst;
      inversion H' as [|? ? Hb _]; subst; rewrite Hzero in Hb;
      exact (Qlt_irrefl 0 Hb).
  - split; [lia|].
    exists prev, p. split; [exact Hprev|].
    split; [apply (Hlater (length t - 1)%nat); [lia|exact Hprev]|].
    split; [exact Hp|exact Hzero].
Qed.

(** The theorem at [1, 32768, 1, 32769]: the entry [-1/32768] of row 2
    reads back as zero and is taken for a zero pivot. *)
Lemma rh_zero_pivot_is_computed_entry_witness :
  exists t,
    routh_hurwitz [1; 32768; 1; 32769] = Ok (t, InstavelDivisao)
    /\ length t = 3%nat.
Proof.
  destruct (routh_hurwitz [1; 32768; 1; 32769]) as [[t s]|e] eqn:E;
    [|vm_compute in E; discriminate E].
  assert (Es : s = InstavelDivisao) by (vm_compute in E; congruence).
  subst s. exists t. split; [reflexivity|].
  destruct (rh_zero_pivot_is_computed_entry [1; 32768; 1; 32769] t eq_refl E)
    as [Hlen _].
  cbn [length] in Hlen. lia.
Defined.

End RouthPivot.

(** ** What the verdicts say *)

Module RouthVerdict.

Import Routh RouthFacts RouthTable RouthShape.
Local Open Scope res_scope.

(** Where a verdict other than the two early ones comes from. *)
Lemma verdict_classified (coeffs : list Q) (t : table) (s : stability) :
  routh_hurwitz coeffs = Ok (t, s) ->
  s <> InstavelSinais -> s <> InstavelDivisao ->
  same_sign coeffs = true
  /\ exists fc, first_col t = Ok fc /\ s = classify fc.
Proof.
  unfold routh_hurwitz.
  destruct (same_sign coeffs); cbn [negb].
  2:{ intros H. inversion H. congruence. }
  destruct (loop _ _) as [[t1|t1|t1 s1]|e] eqn:El; cbn [bind];
    try discriminate.
  - destruct (first_col t1) as [fc|] eqn:Efc; cbn [bind]; [|discriminate].
    intros H _ _. inversion H; subst. eauto.
  - destruct (first_col t1) as [fc|] eqn:Efc; cbn [bind]; [|discriminate].
    intros H _ _. inversion H; subst. eauto.
  - intros H _ Hd. inversion H; subst.
    apply loop_return in El. contradiction.
Qed.

Lemma sign_changes_bound (fc : list Q) :
  (sign_changes fc <= length fc - 1)%nat.
Proof.
  induction fc as [|x fc IH]; [cbn; lia|].
  destruct fc as [|y fc]; [cbn; lia|].
  change (sign_changes (x :: y :: fc))
    with ((if Qltb (x * y) 0 then 1 else 0) + sign_changes (y :: fc))%nat.
  cbn [length] in *.
  destruct (Qltb (x * y) 0); lia.
Qed.

Lemma first_col_length (t : table) (fc : list Q) :
  first_col t = Ok fc -> (length fc <= length t)%nat.
Proof.
  revert fc. induction t as [|r t IH]; intros fc; cbn [first_col].
  - intros H. inversion H. cbn. lia.
  - destruct (Nat.ltb 1 (length r)).
    + destruct (float_at r 1); cbn [bind]; [|discriminate].
      destruct (first_col t) as [fc'|]; cbn [bind]; [|discriminate].
      intros H. inversion H; subst. specialize (IH fc' eq_refl).
      cbn [length]. lia.
    + intros H. specialize (IH fc H). cbn [length]. lia.
Qed.

(** X4: a reported count of right-half-plane poles is at least 1 and
    smaller than the number of coefficients, that is, at most the degree
    of the polynomial. *)
Theorem rh_count_bound (coeffs : list Q) (t : table) (k : nat) :
  routh_hurwitz coeffs = Ok (t, InstavelPolos k) ->
  (1 <= k < length coeffs)%nat.
Proof.
  intros Hr.
  destruct (verdict_classified coeffs t _ Hr) as (Hsign & fc & Hfc & Hc);
    [discriminate|discriminate|].
  assert (Hk : k = sign_changes fc /\ (0 < k)%nat).
  { revert Hc. unfold classify.
    destruct (Nat.ltb_spec 0 (sign_changes fc)) as [H|H].
    - intros E. inversion E. split; [reflexivity|assumption].
    - destruct (any_tiny fc); discriminate. }
  destruct Hk as [-> Hpos].
  pose proof (sign_changes_bound fc) as Hb.
  pose proof (first_col_length t fc Hfc) as Hl.
  destruct coeffs as [|c coeffs].
  { vm_compute in Hr. discriminate Hr. }
  destruct (routh_result (c :: coeffs) t
              (InstavelPolos (sign_changes fc)) Hsign) as [_ Hrows];
    [cbn [length]; lia|exact Hr|].
  cbn [length] in *.
  destruct Hrows as [[Hrows _]|[_ Hrows]]; [lia|discriminate].
Qed.

(** The theorem at [1, 2, 3, 4, 5]: two poles reported, degree four. *)
Lemma rh_count_bound_witness :
  exists t k,
    routh_hurwitz [1; 2; 3; 4; 5] = Ok (t, InstavelPolos k)
    /\ (1 <= k < 5)%nat.
Proof.
  destruct (routh_hurwitz [1; 2; 3; 4; 5]) as [[t s]|e] eqn:E;
    [|vm_compute in E; discriminate E].
  assert (Es : s = InstavelPolos 2) by (vm_compute in E; congruence).
  subst s. exists t, 2%nat. split; [reflexivity|].
  exact (rh_count_bound [1; 2; 3; 4; 5] t 2%nat E).
Defined.

(** *** Degree at most two *)

Lemma round_half_even_nonneg (x : Q) :
  0 <= x -> (0 <= round_half_even x)%Z.
Proof.
  destruct x as [n d]. unfold Qle, round_half_even. cbn [Qnum Qden].
  intros H.
  assert (Hfl : (0 <= n / Z.pos d)%Z) by (apply Z.div_pos; lia).
  destruct (2 * (n mod Z.pos d) ?= Z.pos d)%Z; [|lia|lia].
  destruct (Z.even (n / Z.pos d)); lia.
Qed.

Lemma round_half_even_nonpos (x : Q) :
  x <= 0 -> (round_half_even x <= 0)%Z.
Proof.
  destruct x as [n d]. unfold Qle, round_half_even. cbn [Qnum Qden].
  intros H.
  pose proof (Z.div_mod n (Z.pos d)) as Hdm.
  pose proof (Z.mod_pos_bound n (Z.pos d)) as Hmod.
  assert (Hfl : (n / Z.pos d <= 0)%Z).
  { apply Z.div_le_upper_bound; lia. }
  assert (Hneg : (0 < n mod Z.pos d -> n / Z.pos d <= -1)%Z) by nia.
  destruct (2 * (n mod Z.pos d) ?= Z.pos d)%Z eqn:E.
  - apply Z.compare_eq in E.
    destruct (Z.even (n / Z.pos d)); lia.
  - lia.
  - apply Z.compare_gt_iff in E. lia.
Qed.

Lemma Qlt_both (x : Q) : 0 < x -> x < 0 -> False.
Proof. intros H1 H2. exact (Qlt_irrefl 0 (Qlt_trans 0 x 0 H1 H2)). Qed.

Lemma same_sign_product (x y : Q) :
  (0 < x /\ 0 < y) \/ (x < 0 /\ y < 0) -> Qltb (x * y) 0 = false.
Proof.
  intros H. destruct (Qltb (x * y) 0) eqn:E; [|reflexivity].
  apply product_negative_iff in E. exfalso.
  destruct H as [[Hx Hy]|[Hx Hy]], E as [[Hx' Hy']|[Hx' Hy']];
    eauto using Qlt_both.
Qed.

(** The product of a coefficient with a rounded entry of the same sign (or
    rounded to zero) is not negative. *)
Lemma rounded_product (b e : Q) :
  (0 < b /\ 0 <= e) \/ (b < 0 /\ e <= 0) ->
  Qltb (b * (round4 e # 10000)) 0 = false.
Proof.
  intros H. destruct (Qltb (b * (round4 e # 10000)) 0) eqn:E; [|reflexivity].
  apply product_negative_iff in E. exfalso.
  assert (Hsgn : forall m : Z, (m # 10000) < 0 <-> (m < 0)%Z).
  { intros m. unfold Qlt. cbn. lia. }
  assert (Hsgn' : forall m : Z, 0 < (m # 10000) <-> (0 < m)%Z).
  { intros m. unfold Qlt. cbn. lia. }
  unfold round4 in E.
  destruct H as [[Hb He]|[Hb He]].
  - assert (Hr : (0 <= round_half_even (e * 10000))%Z).
    { apply round_half_even_nonneg.
      apply Qmult_le_0_compat; [assumption|discriminate]. }
    destruct E as [[Hb' _]|[_ Hm]].
    + eauto using Qlt_both.
    + pose proof (proj1 (Hsgn _) Hm). lia.
  - assert (Hr : (round_half_even (e * 10000) <= 0)%Z).
    { apply round_half_even_nonpos.
      setoid_replace 0 with (0 * 10000) by reflexivity.
      apply Qmult_le_compat_r; [assumption|discriminate]. }
    destruct E as [[_ Hm]|[Hb' _]].
    + pose proof (proj1 (Hsgn' _) Hm). lia.
    + eauto using Qlt_both.
Qed.

(** X5: for a polynomial of degree at most two whose coefficients pass
    the sign test, the analyzer never answers Unstable. *)
Theorem rh_low_degree_not_unstable
    (coeffs : list Q) (t : table) (s : stability) :
  same_sign coeffs = true ->
  (length coeffs <= 3)%nat ->
  routh_hurwitz coeffs = Ok (t, s) ->
  s = Estavel \/ s = MarginalmenteEstavel.
Proof.
  intros Hsign Hn Hr.
  assert (Hclass : forall fc, sign_changes fc = 0%nat ->
            classify fc = Estavel \/ classify fc = MarginalmenteEstavel).
  { intros fc H. unfold classify. rewrite H. cbn.
    destruct (any_tiny fc); auto. }
  pose proof (proj1 (same_sign_iff coeffs) Hsign) as Hs.
  unfold routh_hurwitz in Hr. rewrite Hsign in Hr. cbn [negb] in Hr.
  destruct coeffs as [|a [|b [|c [|d coeffs]]]]; [| | | |cbn in Hn; lia].
  - cbn in Hr. inversion Hr. apply (Hclass []). reflexivity.
  - cbn in Hr. inversion Hr. apply (Hclass [a]). reflexivity.
  - cbn in Hr. inversion Hr. apply (Hclass [a; b]).
    cbn [sign_changes]. rewrite same_sign_product; [reflexivity|].
    destruct Hs as [H|H]; inversion H as [|? ? Ha H']; subst;
      inversion H' as [|? ? Hb _]; subst; auto.
  - assert (Hab : (0 < a /\ 0 < b /\ 0 < c) \/ (a < 0 /\ b < 0 /\ c < 0)).
    { destruct Hs as [H|H]; inversion H as [|? ? Ha H']; subst;
        inversion H' as [|? ? Hb H'']; subst;
        inversion H'' as [|? ? Hc _]; subst; auto. }
    assert (Hb0 : Qeq_bool b 0 = false).
    { destruct (Qeq_bool b 0) eqn:E; [|reflexivity].
      apply Qeq_bool_eq in E. exfalso.
      destruct Hab as [(_ & Hb & _)|(_ & Hb & _)]; rewrite E in Hb;
        exact (Qlt_irrefl 0 Hb). }
    cbn [length Nat.sub seq loop] in Hr.
    rewrite (body_eq 2 (init_table [a; b; c])
               [Label 1; Str b; Lit0] [Label 0; Str a; Str c] b
               eq_refl eq_refl eq_refl eq_refl) in Hr.
    rewrite Hb0 in Hr. cbv zeta in Hr.
    change (current_row 2 [Label 1; Str b; Lit0] [Label 0; Str a; Str c])
      with [Label 2;
            Fmt4 (round4 (entry [Label 1; Str b; Lit0]
                                [Label 0; Str a; Str c] 1))] in Hr.
    cbn [length Nat.leb bind loop] in Hr.
    assert (Ee : entry [Label 1; Str b; Lit0] [Label 0; Str a; Str c] 1
                 = (b * c - a * 0) / b).
    { unfold entry, float_at, item, div. cbn. now rewrite Hb0. }
    rewrite Ee in Hr.
    cbn in Hr. inversion Hr. apply Hclass.
    cbn [sign_changes].
    rewrite same_sign_product by tauto.
    rewrite rounded_product; [reflexivity|].
    assert (Eq : (b * c - a * 0) / b == c).
    { field. intros E. apply Qeq_eq_bool in E. congruence. }
    rewrite Eq.
    destruct Hab as [(_ & Hb & Hc)|(_ & Hb & Hc)];
      [left|right]; split; auto using Qlt_le_weak.
Qed.

(** The theorem at [2, 3, 1]. *)
Lemma rh_low_degree_not_unstable_witness :
  exists t s,
    routh_hurwitz [2; 3; 1] = Ok (t, s)
    /\ (s = Estavel \/ s = MarginalmenteEstavel).
Proof.
  destruct (routh_hurwitz [2; 3; 1]) as [[t s]|e] eqn:E;
    [|vm_compute in E; discriminate E].
  exists t, s. split; [reflexivity|].
  apply (rh_low_degree_not_unstable [2; 3; 1] t s eq_refl);
    [cbn; lia|exact E].
Defined.

End RouthVerdict.

(** ** The colour of the verdict *)

Module DisplayFacts.

Import Routh Display.
Local Open Scope string_scope.

(** X6: the result label is green for the verdict "Estável" and red for
    every other verdict; the marginal verdict, whose text carries its
    explanation in brackets, is never matched by the yellow branch. *)
Theorem result_color_green_or_red (s : stability) :
  result_color (stability_text s)
  = match s with
    | Estavel => "#2ecc71"
    | _ => "#e74c3c"
    end
  /\ result_color (stability_text s) <> "#f39c12".
Proof.
  assert (H : result_color (stability_text s)
              = match s with
                | Estavel => "#2ecc71"
                | _ => "#e74c3c"
                end).
  { destruct s; reflexivity. }
  split; [exact H|].
  rewrite H. destruct s; discriminate.
Qed.

End DisplayFacts.

(** ** Texts put in the entries, read back *)

Module EntriesFacts.

Import Parse ParseFacts Entries.

Lemma lstrip_app (p : ascii -> bool) (s r : str) :
  lstrip p (s ++ r)
  = if forallb p s then lstrip p r else lstrip p s ++ r.
Proof.
  induction s as [|c s IH]; cbn [app lstrip forallb]; [reflexivity|].
  destruct (p c); cbn [andb]; [exact IH|reflexivity].
Qed.

Lemma lstrip_all_nil (p : ascii -> bool) (s : str) :
  forallb p s = true -> lstrip p s = [].
Proof.
  induction s as [|c s IH]; cbn [lstrip forallb]; [reflexivity|].
  destruct (p c); cbn [andb]; [exact IH|discriminate].
Qed.

Lemma strip_surrounded (p : ascii -> bool) (b1 s b2 : str) :
  Forall (fun c => p c = true) b1 ->
  Forall (fun c => p c = true) b2 ->
  strip p (b1 ++ s ++ b2) = strip p s.
Proof.
  intros H1 H2. unfold strip.
  rewrite lstrip_all by assumption.
  rewrite lstrip_app.
  destruct (forallb p s) eqn:E.
  - rewrite (lstrip_all_nil p s E).
    rewrite lstrip_all_nil; [reflexivity|].
    apply forallb_forall. apply Forall_forall. exact H2.
  - now apply rstrip_all.
Qed.

(** X7: runs of '[' and ']' around a text do not change what
    [parse_coefficients] returns. *)
Theorem parse_coefficients_brackets_ignored
    (pyfloat : str -> option Q) (b1 text b2 : str) :
  Forall (fun c => is_bracket c = true) b1 ->
  Forall (fun c => is_bracket c = true) b2 ->
  parse_coefficients pyfloat (b1 ++ text ++ b2)
  = parse_coefficients pyfloat text.
Proof.
  intros H1 H2. unfold parse_coefficients.
  now rewrite strip_surrounded.
Qed.

(** The theorem at "[[1 2]" against "1 2". *)
Lemma parse_coefficients_brackets_ignored_witness :
  parse_coefficients integer_float (list_ascii_of_string "[[1 2]")
  = parse_coefficients integer_float (list_ascii_of_string "1 2")
  /\ parse_coefficients integer_float (list_ascii_of_string "[[1 2]")
     = Some [1; 2].
Proof.
  split; [|reflexivity].
  apply (parse_coefficients_brackets_ignored integer_float
           (list_ascii_of_string "[[") (list_ascii_of_string "1 2")
           (list_ascii_of_string "]")); repeat constructor.
Defined.

(** *** Splitting a joined text *)

Lemma split_from_run (tok cur rest : str) :
  Forall (fun c => is_space c = false) tok ->
  split_from cur (tok ++ rest) = split_from (rev tok ++ cur) rest.
Proof.
  intros H. revert cur. induction H as [|c tok Hc _ IH]; intros cur.
  - reflexivity.
  - cbn [app split_from rev]. rewrite Hc, IH.
    now rewrite <- app_assoc.
Qed.

Lemma split_join_space (texts : list str) :
  Forall clean texts -> split (join_space texts) = texts.
Proof.
  unfold split.
  induction texts as [|x texts IH]; intros H; [reflexivity|].
  inversion H as [|? ? [Hne Hx] Hrest]; subst.
  assert (Hrev : rev x <> []).
  { intros E. apply Hne. rewrite <- (rev_involutive x), E. reflexivity. }
  destruct texts as [|y texts].
  - cbn [join_space].
    rewrite <- (app_nil_r x) at 1.
    rewrite split_from_run by assumption.
    rewrite app_nil_r. cbn [split_from].
    destruct (rev x) eqn:E; [contradiction|].
    now rewrite <- E, rev_involutive.
  - change (join_space (x :: y :: texts))
      with (x ++ " "%char :: join_space (y :: texts)).
    rewrite split_from_run by assumption.
    rewrite app_nil_r. cbn [split_from].
    change (is_space " ") with true. cbv iota.
    destruct (rev x) eqn:E; [contradiction|].
    rewrite <- E, rev_involutive. now rewrite IH.
Qed.

Lemma strip_none (p : ascii -> bool) (s : str) :
  match s with c :: _ => p c = false | [] => True end ->
  match rev s with c :: _ => p c = false | [] => True end ->
  strip p s = s.
Proof.
  intros H1 H2. unfold strip, rstrip.
  rewrite (lstrip_head_kept p s H1).
  rewrite (lstrip_head_kept p (rev s) H2).
  apply rev_involutive.
Qed.

Lemma join_space_Forall (P : ascii -> Prop) (texts : list str) :
  P " "%char -> Forall (Forall P) texts -> Forall P (join_space texts).
Proof.
  intros Hsp. induction 1 as [|x texts Hx _ IH]; [constructor|].
  destruct texts as [|y texts]; [exact Hx|].
  change (join_space (x :: y :: texts))
    with (x ++ " "%char :: join_space (y :: texts)).
  apply Forall_app. split; [exact Hx|]. constructor; assumption.
Qed.

Lemma uint_chars (d : Decimal.uint) :
  Forall sign_or_digit (list_ascii_of_string (NilEmpty.string_of_uint d)).
Proof.
  induction d; cbn [NilEmpty.string_of_uint list_ascii_of_string];
    constructor; try assumption; split; reflexivity.
Qed.

Lemma str_int_chars (n : Z) : Forall sign_or_digit (str_int n).
Proof.
  assert (H : forall d,
             Forall sign_or_digit
               (list_ascii_of_string (NilZero.string_of_uint d))).
  { intros d. unfold NilZero.string_of_uint.
    destruct d; try apply uint_chars.
    repeat constructor. }
  unfold str_int, NilZero.string_of_int.
  destruct (Z.to_int n); [apply H|].
  cbn [list_ascii_of_string]. constructor; [split; reflexivity|apply H].
Qed.

Lemma str_int_nonempty (n : Z) : str_int n <> [].
Proof.
  unfold str_int, NilZero.string_of_int, NilZero.string_of_uint.
  destruct (Z.to_int n) as [d|d]; destruct d; discriminate.
Qed.

Lemma floats_map (pyfloat : str -> option Q) (A : Type)
    (text : A -> str) (value : A -> Q) (l : list A) :
  (forall a, In a l -> pyfloat (strip is_space (text a)) = Some (value a)) ->
  floats pyfloat (map text l) = Some (map value l).
Proof.
  induction l as [|a l IH]; intros H; [reflexivity|].
  cbn [map floats]. rewrite (H a (or_introl eq_refl)).
  rewrite IH; [reflexivity|].
  intros b Hb. apply H. now right.
Qed.

(** X8: the text that [load_example] puts in an entry for a list of
    integers is read back by [parse_coefficients] as that list, whenever
    [float] reads the decimal text of each of the integers as its value. *)
Theorem load_example_round_trip
    (pyfloat : str -> option Q) (coefficients : list Z) :
  (forall n, In n coefficients -> pyfloat (str_int n) = Some (inject_Z n)) ->
  parse_coefficients pyfloat (example_text coefficients)
  = Some (map inject_Z coefficients).
Proof.
  intros Hfloat. unfold parse_coefficients, example_text.
  assert (Hchars : Forall (fun c => is_bracket c = false)
                     (join_space (map str_int coefficients))).
  { apply join_space_Forall; [reflexivity|].
    apply Forall_forall. intros x Hx.
    apply in_map_iff in Hx. destruct Hx as (n & <- & _).
    eapply Forall_impl; [|apply str_int_chars]. intros c Hc. apply Hc. }
  rewrite strip_none.
  - rewrite split_join_space.
    + apply floats_map. intros n Hn.
      rewrite strip_token; [now apply Hfloat|].
      eapply Forall_impl; [|apply str_int_chars]. intros c Hc. apply Hc.
    + apply Forall_forall. intros x Hx.
      apply in_map_iff in Hx. destruct Hx as (n & <- & _).
      split; [apply str_int_nonempty|].
      eapply Forall_impl; [|apply str_int_chars]. intros c Hc. apply Hc.
  - destruct (join_space (map str_int coefficients)); [exact I|].
    now inversion Hchars.
  - apply Forall_rev in Hchars.
    destruct (rev (join_space (map str_int coefficients))); [exact I|].
    now inversion Hchars.
Qed.

(** The theorem at the example "Sistema Instável", [1, -1, 1], with the
    reader of decimal integers for [float]. *)
Lemma load_example_round_trip_witness :
  example_text [1; -1; 1]%Z = list_ascii_of_string "1 -1 1"
  /\ parse_coefficients integer_float (example_text [1; -1; 1]%Z)
     = Some [1; -1; 1].
Proof.
  split; [reflexivity|].
  apply (load_example_round_trip integer_float [1; -1; 1]%Z).
  intros n [<-|[<-|[<-|[]]]]; reflexivity.
Defined.

End EntriesFacts.

(** ** The controller form *)

Module LoopFacts.

Import Control ControlFacts Loop.

(** X9: [get_controller_tf] reads only the entries that
    [update_controller_fields] creates for the selected type: two forms of
    the same type that agree on those entries give the same controller. *)
Theorem get_controller_tf_reads_created
    (pyfloat : Parse.str -> option Q) (f g : controller_form) :
  ctrl_type f = ctrl_type g ->
  (forall fld, created (ctrl_type f) fld = true ->
               entry_of fld f = entry_of fld g) ->
  get_controller_tf pyfloat f = get_controller_tf pyfloat g.
Proof.
  intros Ht H. unfold get_controller_tf. rewrite <- Ht.
  pose proof (H Kp eq_refl) as Hkp. cbn [entry_of] in Hkp. rewrite <- Hkp.
  destruct (pyfloat (kp_entry f)) as [kp|]; [|reflexivity].
  destruct (ctrl_type f) eqn:E.
  - reflexivity.
  - pose proof (H Ki eq_refl) as Hki. cbn [entry_of] in Hki.
    now rewrite <- Hki.
  - pose proof (H Kd eq_refl) as Hkd. cbn [entry_of] in Hkd.
    now rewrite <- Hkd.
  - pose proof (H Ki eq_refl) as Hki. pose proof (H Kd eq_refl) as Hkd.
    cbn [entry_of] in Hki, Hkd. now rewrite <- Hki, <- Hkd.
  - pose proof (H NumC eq_refl) as Hn. pose proof (H DenC eq_refl) as Hd.
    cbn [entry_of] in Hn, Hd. now rewrite <- Hn, <- Hd.
  - pose proof (H NumC eq_refl) as Hn. pose proof (H DenC eq_refl) as Hd.
    cbn [entry_of] in Hn, Hd. now rewrite <- Hn, <- Hd.
  - pose proof (H NumC eq_refl) as Hn. pose proof (H DenC eq_refl) as Hd.
    pose proof (H NumAt eq_refl) as Hn'. pose proof (H DenAt eq_refl) as Hd'.
    cbn [entry_of] in Hn, Hd, Hn', Hd'.
    now rewrite <- Hn, <- Hd, <- Hn', <- Hd'.
  - reflexivity.
Qed.

(** The theorem at two PI forms. *)
Lemma get_controller_tf_reads_created_witness :
  get_controller_tf Parse.integer_float (pi_form [])
  = get_controller_tf Parse.integer_float (pi_form (list_ascii_of_string "x"))
  /\ get_controller_tf Parse.integer_float (pi_form [])
     = Some {| num := [2; 3]; den := [1; 0] |}.
Proof.
  split; [|reflexivity].
  apply get_controller_tf_reads_created; [reflexivity|].
  intros fld. destruct fld; cbn; intros H; try discriminate H; reflexivity.
Defined.

(** *** The P, PI, PD and PID laws *)

Lemma tf_monic (n d : list Q) :
  tf n (1 :: d) = Some {| num := strip_leading n; den := 1 :: d |}.
Proof.
  unfold tf, normalize. destruct d as [|c d]; reflexivity.
Qed.

(** X10: the controllers of the four PID-family types.  With the gains
    read from the entries, the controller is built and, at every point
    [x] other than 0, its value is [Kp] (P), [Kp + Ki/x] (PI),
    [Kp + Kd*x] (PD), [Kp + Ki/x + Kd*x] (PID). *)
Theorem pid_family_law
    (pyfloat : Parse.str -> option Q) (f : controller_form) (kp : Q) :
  pyfloat (kp_entry f) = Some kp ->
  (ctrl_type f = P ->
   exists C, get_controller_tf pyfloat f = Some C
     /\ forall x, ~ eval (den C) x == 0
                  /\ eval (num C) x / eval (den C) x == kp)
  /\ (forall ki, ctrl_type f = PI -> pyfloat (ki_entry f) = Some ki ->
      exists C, get_controller_tf pyfloat f = Some C
        /\ forall x, ~ x == 0 ->
             ~ eval (den C) x == 0
             /\ eval (num C) x / eval (den C) x == kp + ki / x)
  /\ (forall kd, ctrl_type f = PD -> pyfloat (kd_entry f) = Some kd ->
      exists C, get_controller_tf pyfloat f = Some C
        /\ forall x, ~ eval (den C) x == 0
                     /\ eval (num C) x / eval (den C) x == kp + kd * x)
  /\ (forall ki kd, ctrl_type f = PID ->
      pyfloat (ki_entry f) = Some ki -> pyfloat (kd_entry f) = Some kd ->
      exists C, get_controller_tf pyfloat f = Some C
        /\ forall x, ~ x == 0 ->
             ~ eval (den C) x == 0
             /\ eval (num C) x / eval (den C) x == kp + ki / x + kd * x).
Proof.
  intros Hkp.
  assert (E1 : forall x, eval [1] x == 1).
  { intros x. unfold eval. cbn. ring. }
  assert (Es : forall x, eval [1; 0] x == x).
  { intros x. unfold eval. cbn. ring. }
  split; [|split; [|split]].
  - intros Ht. eexists. split.
    { unfold get_controller_tf. rewrite Hkp, Ht. apply tf_monic. }
    intros x. cbn [num den]. rewrite eval_strip_leading, E1.
    split; [discriminate|].
    unfold eval. cbn. field.
  - intros ki Ht Hki. eexists. split.
    { unfold get_controller_tf. rewrite Hkp, Ht, Hki. apply tf_monic. }
    intros x Hx. cbn [num den]. rewrite eval_strip_leading, Es.
    split; [exact Hx|].
    unfold eval. cbn. field. exact Hx.
  - intros kd Ht Hkd. eexists. split.
    { unfold get_controller_tf. rewrite Hkp, Ht, Hkd. apply tf_monic. }
    intros x. cbn [num den]. rewrite eval_strip_leading, E1.
    split; [discriminate|].
    unfold eval. cbn. field.
  - intros ki kd Ht Hki Hkd. eexists. split.
    { unfold get_controller_tf. rewrite Hkp, Ht, Hki, Hkd. apply tf_monic. }
    intros x Hx. cbn [num den]. rewrite eval_strip_leading, Es.
    split; [exact Hx|].
    unfold eval. cbn. field. exact Hx.
Qed.

(** The theorem at [pid_form], at the point 1. *)
Lemma pid_family_law_witness :
  exists C,
    get_controller_tf Parse.integer_float pid_form = Some C
    /\ eval (num C) 1 / eval (den C) 1 == 2 + 3 / 1 + 5 * 1.
Proof.
  destruct (proj2 (proj2 (proj2
              (pid_family_law Parse.integer_float pid_form 2 eq_refl)))
              3 5 eq_refl eq_refl eq_refl) as (C & HC & Hlaw).
  exists C. split; [exact HC|].
  apply (Hlaw 1). discriminate.
Defined.

(** *** Lead and lag *)

(** X11: for the types Avanço and Atraso alike, with the gain [Kp], the
    numerator [N] and the denominator [D] read from the entries, the
    numerator handed to [tf] is [N] scaled by [Kp]: a controller that is
    built has, at every point [x] where [D] does not vanish, a
    denominator that does not vanish and the value [Kp * N(x) / D(x)]. *)
Theorem lead_or_lag_law
    (pyfloat : Parse.str -> option Q) (f : controller_form)
    (kp : Q) (N D : list Q) (C : TransferFunction) :
  ctrl_type f = Avanco \/ ctrl_type f = Atraso ->
  pyfloat (kp_entry f) = Some kp ->
  Parse.parse_coefficients pyfloat (num_c_entry f) = Some N ->
  Parse.parse_coefficients pyfloat (den_c_entry f) = Some D ->
  get_controller_tf pyfloat f = Some C ->
  forall x, ~ eval D x == 0 ->
    ~ eval (den C) x == 0
    /\ eval (num C) x / eval (den C) x == kp * (eval N x / eval D x).
Proof.
  intros Ht Hkp HN HD HC x Hx.
  assert (Hget : tf (map (fun y => y * kp) N) D = Some C).
  { rewrite <- HC. unfold get_controller_tf. rewrite Hkp.
    destruct Ht as [-> | ->]; now rewrite HN, HD. }
  destruct (tf_polynomials _ _ _ Hget) as [En Ed].
  assert (Em : eval (map (fun y => y * kp) N) x == kp * eval N x).
  { assert (E : eval (map (fun y => y * kp) N) x
                == eval (map (Qmult kp) N) x).
    { unfold eval. rewrite <- !map_rev.
      induction (rev N) as [|a l IH]; cbn [map eval_low]; [reflexivity|].
      rewrite IH. ring. }
    rewrite E. apply eval_scale. }
  rewrite En, Ed, !eval_strip_leading, Em.
  split; [exact Hx|].
  field. exact Hx.
Qed.

(** The theorem at [lag_form], at the point 1: the value is
    [2 * (1 + 3) / (1 + 4)]. *)
Lemma lead_or_lag_law_witness :
  get_controller_tf Parse.integer_float lag_form
  = Some {| num := [2; 6]; den := [1; 4] |}
  /\ eval [2; 6] 1 / eval [1; 4] 1 == 2 * (eval [1; 3] 1 / eval [1; 4] 1).
Proof.
  split; [reflexivity|].
  apply (lead_or_lag_law Parse.integer_float lag_form 2 [1; 3] [1; 4]
           {| num := [2; 6]; den := [1; 4] |});
    [right; reflexivity|reflexivity|reflexivity|reflexivity|reflexivity|].
  discriminate.
Defined.

End LoopFacts.

(** ** The font size *)

Module FontFacts.

Import Font.

Lemma step_in_range (size : Z) (c : command) :
  (8 <= size <= 14)%Z -> (8 <= step size c <= 14)%Z.
Proof.
  intros H. destruct c; cbn [step]; unfold increase_font, decrease_font.
  - destruct (Z.ltb_spec size 14); lia.
  - destruct (Z.gtb_spec size 8); lia.
Qed.

(** X13: whatever sequence of "Aumentar Fonte" and "Diminuir Fonte" is
    issued from the start, the font size stays between 8 and 14, so the
    title font stays between 12 and 18. *)
Theorem font_size_in_range (commands : list command) :
  (8 <= run commands initial_font_size <= 14)%Z
  /\ (12 <= title_size (run commands initial_font_size) <= 18)%Z.
Proof.
  assert (H : forall size, (8 <= size <= 14)%Z ->
                           (8 <= run commands size <= 14)%Z).
  { unfold run. induction commands as [|c commands IH]; intros size Hs.
    - exact Hs.
    - cbn [fold_left]. apply IH. now apply step_in_range. }
  specialize (H initial_font_size).
  unfold title_size, initial_font_size in *. lia.
Qed.

End FontFacts.
